(** * VideoCall: the media session component of healthBridge

    A shallow embedding of [src/components/VideoCall.tsx]: the React
    component that joins an Agora channel, keeps the list of remote
    participants, rebuilds the local tracks when a device selection changes
    and tears the session down.

    The component is a set of closures over React state and over one
    transport client.  The embedding keeps
    - the React state, the abort flag of the effect run and the listeners
      of the client in one record, [World];
    - every call that leaves the component (transport client, tracks,
      console, toast, the [onLeave] prop) in a trace, oldest call first;
    - the result of every call that can fail in an oracle chosen by the
      environment, so that a theorem quantifies over all transports;
    - the two halves of [init] around its [await] as two functions, so that
      other handlers can run between them.

    Rendering (playing the local video, the mute toggles) and the
    enumeration of the devices are left out: the device lists and the
    selections are part of the initial state. *)

From stdpp Require Import base strings list pretty.
From Stdlib Require Import ZArith.

Set Default Proof Using "Type".
Open Scope string_scope.
Open Scope list_scope.

(** ** Data *)

(** [mediaType] of the transport events: ['audio' | 'video']. *)
Inductive MediaKind := audio | video.

(** [client.connectionState]; the component compares it with
    ['DISCONNECTED'] and ['CONNECTED'] and never writes it. *)
Inductive ConnectionState :=
  DISCONNECTED | CONNECTING | RECONNECTING | CONNECTED | DISCONNECTING.

(** The transport's [UID = number | string]; [===] never identifies a
    number with a string. *)
Inductive UID := UidNumber (n : Z) | UidString (s : string).

#[global] Instance MediaKind_eq_dec : EqDecision MediaKind.
Proof. solve_decision. Defined.
#[global] Instance ConnectionState_eq_dec : EqDecision ConnectionState.
Proof. solve_decision. Defined.
#[global] Instance UID_eq_dec : EqDecision UID.
Proof. solve_decision. Defined.

(** [IAgoraRTCRemoteUser], as a listener reads it when it runs.  The
    transport owns the object and keeps [hasAudio], [hasVideo] and the two
    track handles up to date; [users] holds references to these objects and
    the component reads nothing but [uid] from a stored one, so a stored
    record stands for the object with that uid and its other fields are
    those of the event that inserted it. *)
Record RemoteUser := {
  uid : UID;
  hasAudio : bool;
  hasVideo : bool;
  audioTrack : option nat;
  videoTrack : option nat
}.

(** A local track object.  [trackId] stands for the identity of the object
    returned by [createMicrophoneAudioTrack]/[createCameraVideoTrack]. *)
Record LocalTrack := {
  trackKind : MediaKind;
  trackDevice : string;
  trackId : nat
}.

#[global] Instance LocalTrack_eq_dec : EqDecision LocalTrack.
Proof. solve_decision. Defined.

Record MediaDeviceInfo := { deviceId : string; label : string }.

(** The value a rejected promise or a [throw] carries; the component only
    reads [err.code]. *)
Record JsError := { code : option string }.

Inductive EventName := user_published | user_unpublished.

#[global] Instance EventName_eq_dec : EqDecision EventName.
Proof. solve_decision. Defined.

(** Everything the component calls outside itself. *)
Inductive Call :=
| ClientJoin (appId channel uidStr : string)
| ClientSetClientRole (role : string)
| ClientOn (ev : EventName)
| ClientSubscribe (u : UID) (k : MediaKind)
| ClientLeave
| ClientUnpublish (ts : list LocalTrack)
| ClientPublish (ts : list LocalTrack)
| ClientSetPlaybackDevice (id : string)
| TrackClose (t : LocalTrack)
| CreateMicrophoneAudioTrack (microphoneId : string)
| CreateCameraVideoTrack (cameraId : string)
| RemoteAudioPlay (u : UID)
| SetTimeout (ms : nat) (u : UID)
| ConsoleWarn (msg : string)
| ConsoleError (msg : string)
| ToastSuccess (msg : string)
| ToastError (msg : string)
| OnLeave.

(** How a call ends: it returns (an awaited promise resolves) or it throws
    (an awaited promise rejects). *)
Inductive Outcome := Returns | Throws (e : JsError).

Definition Oracle := Call → Outcome.

(** The props and the build-time configuration of one component instance. *)
Record Props := {
  channelName : string;
  userName : string;
  appId : string;                 (* import.meta.env.VITE_AGORA_APP_ID *)
  hasSetPlaybackDevice : bool     (* is client.setPlaybackDevice defined *)
}.

Record World := {
  connectionState : ConnectionState;
  cameras : list MediaDeviceInfo;
  microphones : list MediaDeviceInfo;
  speakers : list MediaDeviceInfo;
  selectedCameraId : string;
  selectedMicId : string;
  selectedSpeakerId : string;
  localVideoTrack : option LocalTrack;
  localAudioTrack : option LocalTrack;
  users : list RemoteUser;
  hasJoined : bool;
  (* the effect run of lines 57-124 *)
  aborted : bool;                       (* abortController.signal.aborted *)
  joinPending : bool;                   (* init is suspended at its await *)
  capturedAudio : option LocalTrack;    (* localAudioTrack in the closure *)
  capturedVideo : option LocalTrack;    (* localVideoTrack in the closure *)
  (* the transport client *)
  listeners : list EventName;
  (* bookkeeping of the embedding *)
  calls : list Call;
  nextTrackId : nat
}.

Definition set_connectionState (s : ConnectionState) (w : World) : World :=
  {| connectionState := s; cameras := cameras w;
     microphones := microphones w; speakers := speakers w;
     selectedCameraId := selectedCameraId w; selectedMicId := selectedMicId w;
     selectedSpeakerId := selectedSpeakerId w;
     localVideoTrack := localVideoTrack w; localAudioTrack := localAudioTrack w;
     users := users w; hasJoined := hasJoined w; aborted := aborted w;
     joinPending := joinPending w; capturedAudio := capturedAudio w;
     capturedVideo := capturedVideo w; listeners := listeners w;
     calls := calls w; nextTrackId := nextTrackId w |}.

Definition setSelectedCameraId (id : string) (w : World) : World :=
  {| connectionState := connectionState w; cameras := cameras w;
     microphones := microphones w; speakers := speakers w;
     selectedCameraId := id; selectedMicId := selectedMicId w;
     selectedSpeakerId := selectedSpeakerId w;
     localVideoTrack := localVideoTrack w; localAudioTrack := localAudioTrack w;
     users := users w; hasJoined := hasJoined w; aborted := aborted w;
     joinPending := joinPending w; capturedAudio := capturedAudio w;
     capturedVideo := capturedVideo w; listeners := listeners w;
     calls := calls w; nextTrackId := nextTrackId w |}.

Definition setSelectedMicId (id : string) (w : World) : World :=
  {| connectionState := connectionState w; cameras := cameras w;
     microphones := microphones w; speakers := speakers w;
     selectedCameraId := selectedCameraId w; selectedMicId := id;
     selectedSpeakerId := selectedSpeakerId w;
     localVideoTrack := localVideoTrack w; localAudioTrack := localAudioTrack w;
     users := users w; hasJoined := hasJoined w; aborted := aborted w;
     joinPending := joinPending w; capturedAudio := capturedAudio w;
     capturedVideo := capturedVideo w; listeners := listeners w;
     calls := calls w; nextTrackId := nextTrackId w |}.

Definition setSelectedSpeakerId (id : string) (w : World) : World :=
  {| connectionState := connectionState w; cameras := cameras w;
     microphones := microphones w; speakers := speakers w;
     selectedCameraId := selectedCameraId w; selectedMicId := selectedMicId w;
     selectedSpeakerId := id;
     localVideoTrack := localVideoTrack w; localAudioTrack := localAudioTrack w;
     users := users w; hasJoined := hasJoined w; aborted := aborted w;
     joinPending := joinPending w; capturedAudio := capturedAudio w;
     capturedVideo := capturedVideo w; listeners := listeners w;
     calls := calls w; nextTrackId := nextTrackId w |}.

Definition setLocalVideoTrack (t : option LocalTrack) (w : World) : World :=
  {| connectionState := connectionState w; cameras := cameras w;
     microphones := microphones w; speakers := speakers w;
     selectedCameraId := selectedCameraId w; selectedMicId := selectedMicId w;
     selectedSpeakerId := selectedSpeakerId w;
     localVideoTrack := t; localAudioTrack := localAudioTrack w;
     users := users w; hasJoined := hasJoined w; aborted := aborted w;
     joinPending := joinPending w; capturedAudio := capturedAudio w;
     capturedVideo := capturedVideo w; listeners := listeners w;
     calls := calls w; nextTrackId := nextTrackId w |}.

Definition setLocalAudioTrack (t : option LocalTrack) (w : World) : World :=
  {| connectionState := connectionState w; cameras := cameras w;
     microphones := microphones w; speakers := speakers w;
     selectedCameraId := selectedCameraId w; selectedMicId := selectedMicId w;
     selectedSpeakerId := selectedSpeakerId w;
     localVideoTrack := localVideoTrack w; localAudioTrack := t;
     users := users w; hasJoined := hasJoined w; aborted := aborted w;
     joinPending := joinPending w; capturedAudio := capturedAudio w;
     capturedVideo := capturedVideo w; listeners := listeners w;
     calls := calls w; nextTrackId := nextTrackId w |}.

(** React's functional update [setUsers(prev => f prev)]. *)
Definition setUsers (f : list RemoteUser → list RemoteUser) (w : World) : World :=
  {| connectionState := connectionState w; cameras := cameras w;
     microphones := microphones w; speakers := speakers w;
     selectedCameraId := selectedCameraId w; selectedMicId := selectedMicId w;
     selectedSpeakerId := selectedSpeakerId w;
     localVideoTrack := localVideoTrack w; localAudioTrack := localAudioTrack w;
     users := f (users w); hasJoined := hasJoined w; aborted := aborted w;
     joinPending := joinPending w; capturedAudio := capturedAudio w;
     capturedVideo := capturedVideo w; listeners := listeners w;
     calls := calls w; nextTrackId := nextTrackId w |}.

Definition setHasJoined (b : bool) (w : World) : World :=
  {| connectionState := connectionState w; cameras := cameras w;
     microphones := microphones w; speakers := speakers w;
     selectedCameraId := selectedCameraId w; selectedMicId := selectedMicId w;
     selectedSpeakerId := selectedSpeakerId w;
     localVideoTrack := localVideoTrack w; localAudioTrack := localAudioTrack w;
     users := users w; hasJoined := b; aborted := aborted w;
     joinPending := joinPending w; capturedAudio := capturedAudio w;
     capturedVideo := capturedVideo w; listeners := listeners w;
     calls := calls w; nextTrackId := nextTrackId w |}.

Definition set_aborted (b : bool) (w : World) : World :=
  {| connectionState := connectionState w; cameras := cameras w;
     microphones := microphones w; speakers := speakers w;
     selectedCameraId := selectedCameraId w; selectedMicId := selectedMicId w;
     selectedSpeakerId := selectedSpeakerId w;
     localVideoTrack := localVideoTrack w; localAudioTrack := localAudioTrack w;
     users := users w; hasJoined := hasJoined w; aborted := b;
     joinPending := joinPending w; capturedAudio := capturedAudio w;
     capturedVideo := capturedVideo w; listeners := listeners w;
     calls := calls w; nextTrackId := nextTrackId w |}.

Definition set_joinPending (b : bool) (w : World) : World :=
  {| connectionState := connectionState w; cameras := cameras w;
     microphones := microphones w; speakers := speakers w;
     selectedCameraId := selectedCameraId w; selectedMicId := selectedMicId w;
     selectedSpeakerId := selectedSpeakerId w;
     localVideoTrack := localVideoTrack w; localAudioTrack := localAudioTrack w;
     users := users w; hasJoined := hasJoined w; aborted := aborted w;
     joinPending := b; capturedAudio := capturedAudio w;
     capturedVideo := capturedVideo w; listeners := listeners w;
     calls := calls w; nextTrackId := nextTrackId w |}.

(** The closures of an effect run see the tracks of the render that
    started it. *)
Definition capture_tracks (w : World) : World :=
  {| connectionState := connectionState w; cameras := cameras w;
     microphones := microphones w; speakers := speakers w;
     selectedCameraId := selectedCameraId w; selectedMicId := selectedMicId w;
     selectedSpeakerId := selectedSpeakerId w;
     localVideoTrack := localVideoTrack w; localAudioTrack := localAudioTrack w;
     users := users w; hasJoined := hasJoined w; aborted := aborted w;
     joinPending := joinPending w; capturedAudio := localAudioTrack w;
     capturedVideo := localVideoTrack w; listeners := listeners w;
     calls := calls w; nextTrackId := nextTrackId w |}.

Definition add_listener (ev : EventName) (w : World) : World :=
  {| connectionState := connectionState w; cameras := cameras w;
     microphones := microphones w; speakers := speakers w;
     selectedCameraId := selectedCameraId w; selectedMicId := selectedMicId w;
     selectedSpeakerId := selectedSpeakerId w;
     localVideoTrack := localVideoTrack w; localAudioTrack := localAudioTrack w;
     users := users w; hasJoined := hasJoined w; aborted := aborted w;
     joinPending := joinPending w; capturedAudio := capturedAudio w;
     capturedVideo := capturedVideo w; listeners := listeners w ++ [ev];
     calls := calls w; nextTrackId := nextTrackId w |}.

Definition record_call (c : Call) (w : World) : World :=
  {| connectionState := connectionState w; cameras := cameras w;
     microphones := microphones w; speakers := speakers w;
     selectedCameraId := selectedCameraId w; selectedMicId := selectedMicId w;
     selectedSpeakerId := selectedSpeakerId w;
     localVideoTrack := localVideoTrack w; localAudioTrack := localAudioTrack w;
     users := users w; hasJoined := hasJoined w; aborted := aborted w;
     joinPending := joinPending w; capturedAudio := capturedAudio w;
     capturedVideo := capturedVideo w; listeners := listeners w;
     calls := calls w ++ [c]; nextTrackId := nextTrackId w |}.

Definition bump_trackId (w : World) : World :=
  {| connectionState := connectionState w; cameras := cameras w;
     microphones := microphones w; speakers := speakers w;
     selectedCameraId := selectedCameraId w; selectedMicId := selectedMicId w;
     selectedSpeakerId := selectedSpeakerId w;
     localVideoTrack := localVideoTrack w; localAudioTrack := localAudioTrack w;
     users := users w; hasJoined := hasJoined w; aborted := aborted w;
     joinPending := joinPending w; capturedAudio := capturedAudio w;
     capturedVideo := capturedVideo w; listeners := listeners w;
     calls := calls w; nextTrackId := S (nextTrackId w) |}.

(** ** A state and exception monad for the bodies of the handlers *)

Inductive Res (A : Type) := Val (a : A) | Exn (e : JsError).
Arguments Val {A} a.
Arguments Exn {A} e.

Definition M (A : Type) : Type := World → Res A * World.

Definition ret {A} (a : A) : M A := fun w => (Val a, w).
Definition throw {A} (e : JsError) : M A := fun w => (Exn e, w).

Definition bind {A B} (m : M A) (k : A → M B) : M B :=
  fun w => match m w with
           | (Val a, w') => k a w'
           | (Exn e, w') => (Exn e, w')
           end.

(** [try { body } catch (err) { handler err }]. *)
Definition try_catch {A} (body : M A) (handler : JsError → M A) : M A :=
  fun w => match body w with
           | (Val a, w') => (Val a, w')
           | (Exn e, w') => handler e w'
           end.

Definition modify (f : World → World) : M unit := fun w => (Val tt, f w).
Definition gets {A} (f : World → A) : M A := fun w => (Val (f w), w).

Declare Scope vc_scope.
Delimit Scope vc_scope with vc.
Notation "x <- m ;; k" := (bind m (fun x => k))
  (at level 100, m at next level, right associativity) : vc_scope.
Notation "m ;; k" := (bind m (fun _ => k))
  (at level 100, right associativity) : vc_scope.
Open Scope vc_scope.

(** The two halves of a finished computation. *)
Definition result_of {A} (r : Res A * World) : Res A := fst r.
Definition world_of {A} (r : Res A * World) : World := snd r.

(** ** The component *)

(** JavaScript truthiness of a string: only [''] is falsy. *)
Definition truthy (s : string) : bool :=
  match s with EmptyString => false | String _ _ => true end.

Section Component.
Variable props : Props.
Variable oracle : Oracle.

(** A synchronous call, or an asynchronous one that is awaited: the
    oracle says whether control comes back normally. *)
Definition call (c : Call) : M unit := fun w =>
  match oracle c with
  | Returns => (Val tt, record_call c w)
  | Throws e => (Exn e, record_call c w)
  end.

(** An asynchronous call whose promise is not awaited here: nothing is
    thrown at the call site. *)
Definition fire (c : Call) : M unit := modify (record_call c).

(** Console, toast and timer calls. *)
Definition emit (c : Call) : M unit := modify (record_call c).

(** A promise nobody awaits: its rejection reaches no caller. *)
Definition detach (m : M unit) : M unit := fun w => (Val tt, world_of (m w)).

(** [track?.close()] *)
Definition opt_close (t : option LocalTrack) : M unit :=
  match t with
  | Some t => call (TrackClose t)
  | None => ret tt
  end.

(** *** Lines 57-107: [init] *)

(** The [catch] block of [init], lines 100-106. *)
Definition init_catch (err : JsError) : M unit :=
  if bool_decide (code err ≠ Some "OPERATION_ABORTED") then
    emit (ConsoleError "Error initializing video call:") ;;
    emit (ToastError "Failed to connect to video call") ;;
    call OnLeave
  else ret tt.

(** [init] up to [await joinPromise], lines 61-71.  [rnd] is the value of
    [Math.floor(Math.random() * 100000)].  [client] is never null here
    (lines 37-40), so the guard is the test on [connectionState]. *)
Definition init_begin (rnd : nat) : M unit :=
  st <- gets connectionState ;;
  if bool_decide (st ≠ DISCONNECTED) then
    emit (ConsoleWarn "Client already connected or connecting")
  else
    try_catch
      (let uidStr := userName props +:+ "-" +:+ pretty rnd in
       fire (ClientJoin (appId props) (channelName props) uidStr) ;;
       ab <- gets aborted ;;
       if ab then ret tt else modify (set_joinPending true))
      init_catch.

Definition register (ev : EventName) : M unit :=
  call (ClientOn ev) ;; modify (add_listener ev).

(** [init] from the point where [joinPromise] settles with [r],
    lines 71-106. *)
Definition init_resume (r : Outcome) : M unit :=
  modify (set_joinPending false) ;;
  try_catch
    (match r with
     | Throws e => throw e
     | Returns =>
         ab <- gets aborted ;;
         if ab then ret tt
         else
           modify (setHasJoined true) ;;
           fire (ClientSetClientRole "host") ;;
           emit (ToastSuccess "Connected to video call") ;;
           register user_published ;;
           register user_unpublished
     end)
    init_catch.

(** *** Lines 80-99: the two transport listeners *)

(** The updater of line 83-86. *)
Definition add_user (user : RemoteUser) (prev : list RemoteUser) : list RemoteUser :=
  match list_find (λ u, uid u = uid user) prev with
  | Some _ => prev
  | None => prev ++ [user]
  end.

(** The updater of line 98. *)
Definition remove_user (user : RemoteUser) (prev : list RemoteUser) : list RemoteUser :=
  filter (λ u, uid u ≠ uid user) prev.

(** The listener of lines 80-95, run from the subscribe call to its end in
    one step: what other listeners do while it waits at the [await] of
    line 81 is not part of it.  Its two halves around that [await] are
    [on_user_published_begin] and [on_user_published_resume]. *)
Definition on_user_published (user : RemoteUser) (mediaType : MediaKind) : M unit :=
  call (ClientSubscribe (uid user) mediaType) ;;
  modify (setUsers (add_user user)) ;;
  (match mediaType, audioTrack user with
   | audio, Some _ => fire (RemoteAudioPlay (uid user))
   | _, _ => ret tt
   end) ;;
  (match mediaType with
   | video => emit (SetTimeout 300 (uid user))
   | audio => ret tt
   end).

Definition on_user_unpublished (user : RemoteUser) : M unit :=
  modify (setUsers (remove_user user)).

(** *** Lines 111-123: the cleanup of the effect *)

Definition cleanup (a v : option LocalTrack) : M unit :=
  try_catch
    (opt_close a ;;
     opt_close v ;;
     call ClientLeave)
    (fun _ => emit (ConsoleWarn "Error during cleanup:")).

Definition effect_cleanup : M unit :=
  modify (set_aborted true) ;;
  a <- gets capturedAudio ;;
  v <- gets capturedVideo ;;
  detach (cleanup a v).

(** *** Lines 126-157: the effect that rebuilds the local tracks *)

Definition create_track (k : MediaKind) (dev : string) : M LocalTrack :=
  call (match k with
        | audio => CreateMicrophoneAudioTrack dev
        | video => CreateCameraVideoTrack dev
        end) ;;
  n <- gets nextTrackId ;;
  modify bump_trackId ;;
  ret {| trackKind := k; trackDevice := dev; trackId := n |}.

Definition setupTracks : M unit :=
  joined <- gets hasJoined ;;
  st <- gets connectionState ;;
  cam <- gets selectedCameraId ;;
  mic <- gets selectedMicId ;;
  a <- gets localAudioTrack ;;
  v <- gets localVideoTrack ;;
  if negb joined || bool_decide (st ≠ CONNECTED) || negb (truthy cam) || negb (truthy mic)
  then ret tt
  else
    try_catch
      (opt_close a ;;
       opt_close v ;;
       call (ClientUnpublish (omap id [a; v])) ;;
       audioTrack <- create_track audio mic ;;
       videoTrack <- create_track video cam ;;
       modify (setLocalAudioTrack (Some audioTrack)) ;;
       modify (setLocalVideoTrack (Some videoTrack)) ;;
       call (ClientPublish [audioTrack; videoTrack]))
      (fun _ =>
         emit (ConsoleError "Error updating tracks:") ;;
         emit (ToastError "Could not update media tracks")).

Definition tracks_effect : M unit :=
  cam <- gets selectedCameraId ;;
  mic <- gets selectedMicId ;;
  joined <- gets hasJoined ;;
  if truthy cam && truthy mic && joined then detach setupTracks else ret tt.

(** The dependency array of the effect, line 157. *)
Definition tracks_deps (w : World) : string * string * bool :=
  (selectedCameraId w, selectedMicId w, hasJoined w).

(** After a handler changed the state React renders again and runs the
    effect when one of its dependencies differs from the last render. *)
Definition after_render (before : World) : M unit :=
  now <- gets tracks_deps ;;
  if bool_decide (now ≠ tracks_deps before) then tracks_effect else ret tt.

(** *** Lines 179-185: the Leave button *)

Definition handleLeave : M unit :=
  a <- gets localAudioTrack ;;
  v <- gets localVideoTrack ;;
  opt_close a ;;
  opt_close v ;;
  fire ClientLeave ;;
  call OnLeave ;;
  emit (ToastSuccess "Left video call").

(** *** Lines 190-201: the three device selectors *)

Definition select_camera (value : string) : M unit :=
  modify (setSelectedCameraId value).

Definition select_microphone (value : string) : M unit :=
  modify (setSelectedMicId value).

Definition select_speaker (value : string) : M unit :=
  modify (setSelectedSpeakerId value) ;;
  if hasSetPlaybackDevice props
  then fire (ClientSetPlaybackDevice value)
  else ret tt.

(** *** Lines 57-110: the body of the effect *)

(** The world has one abort flag and one pending join: it describes one run
    of the effect, from its body to its cleanup and what follows.  A second
    run would own a controller of its own (line 58). *)
Definition mount (rnd : nat) : M unit :=
  modify (set_aborted false) ;;
  modify capture_tracks ;;
  detach (init_begin rnd).

End Component.

(** ** One session of the component, event by event *)

(** What can happen to a mounted component: the pending join settles, the
    effect is cleaned up (unmount, or a change of channel or user name),
    the transport reports a participant or a new connection state, or the
    user acts on a control. *)
Inductive Event :=
| EvJoinSettled (r : Outcome)
| EvCleanup
| EvUserPublished (user : RemoteUser) (mediaType : MediaKind)
| EvUserUnpublished (user : RemoteUser)
| EvConnectionState (s : ConnectionState)
| EvSelectCamera (value : string)
| EvSelectMicrophone (value : string)
| EvSelectSpeaker (value : string)
| EvHandleLeave.

Fixpoint times (n : nat) (m : M unit) : M unit :=
  match n with
  | O => ret tt
  | S n => m ;; times n m
  end.

Section Session.
Variable props : Props.

(** The client calls a listener once per registration of its event. *)
Definition deliver (ev : EventName) (listener : M unit) : M unit :=
  ls <- gets listeners ;;
  times (length (filter (λ e, e = ev) ls)) (detach listener).

Definition handle (oracle : Oracle) (e : Event) : M unit :=
  match e with
  | EvJoinSettled r =>
      pending <- gets joinPending ;;
      if pending then detach (init_resume oracle r) else ret tt
  | EvCleanup => effect_cleanup oracle
  | EvUserPublished user mediaType =>
      deliver user_published (on_user_published oracle user mediaType)
  | EvUserUnpublished user =>
      deliver user_unpublished (on_user_unpublished user)
  | EvConnectionState s => modify (set_connectionState s)
  | EvSelectCamera value => select_camera value
  | EvSelectMicrophone value => select_microphone value
  | EvSelectSpeaker value => select_speaker props value
  | EvHandleLeave => handleLeave oracle
  end.

(** A handler runs to its end, then React renders and runs the effects
    whose dependencies changed.  An exception that escapes a handler is
    reported by the runtime and the state stays as the handler left it. *)
Definition step (oe : Oracle * Event) (w : World) : World :=
  let w' := world_of (handle oe.1 oe.2 w) in
  world_of (after_render oe.1 w w').

Definition run (evs : list (Oracle * Event)) (w : World) : World :=
  foldl (fun w oe => step oe w) w evs.

(** The session starts when the effect body runs. *)
Definition start (oracle : Oracle) (rnd : nat) (w : World) : World :=
  world_of (mount props oracle rnd w).

End Session.

(** The state of a component that has just been created, with the device
    lists and selections it was given. *)
Definition initial_world (cams mics spks : list MediaDeviceInfo)
    (cam mic spk : string) : World :=
  {| connectionState := DISCONNECTED;
     cameras := cams; microphones := mics; speakers := spks;
     selectedCameraId := cam; selectedMicId := mic; selectedSpeakerId := spk;
     localVideoTrack := None; localAudioTrack := None;
     users := []; hasJoined := false;
     aborted := false; joinPending := false;
     capturedAudio := None; capturedVideo := None;
     listeners := []; calls := []; nextTrackId := 0 |}.

(** The calls a computation added to the trace of [w]. *)
Definition new_calls (w w' : World) : list Call :=
  drop (length (calls w)) (calls w').

Definition all_ok : Oracle := fun _ => Returns.

(** ** Vocabulary of the properties *)

(** [m] keeps the property [P] of the world, however it ends. *)
Definition respects {A} (P : World → Prop) (m : M A) : Prop :=
  ∀ w, P w → P (world_of (m w)).

(** An error that reaches the user or the caller: the error toast, or the
    [onLeave] callback that ends the call. *)
Definition is_error_report (c : Call) : bool :=
  match c with
  | ToastError _ | OnLeave => true
  | _ => false
  end.

(** Calls on the transport client or on a local track. *)
Definition is_transport (c : Call) : bool :=
  match c with
  | ClientJoin _ _ _ | ClientSetClientRole _ | ClientOn _
  | ClientSubscribe _ _ | ClientLeave | ClientUnpublish _ | ClientPublish _
  | ClientSetPlaybackDevice _ | TrackClose _
  | CreateMicrophoneAudioTrack _ | CreateCameraVideoTrack _ => true
  | _ => false
  end.

(** Registration of a listener on the client. *)
Definition is_registration (c : Call) : bool :=
  match c with
  | ClientOn _ => true
  | _ => false
  end.

Definition has_kind (k : MediaKind) (ts : list LocalTrack) : bool :=
  existsb (λ t, bool_decide (trackKind t = k)) ts.

(** Transport and lifecycle calls that touch a local track of kind [k]. *)
Definition affects_kind (k : MediaKind) (c : Call) : bool :=
  match c with
  | TrackClose t => bool_decide (trackKind t = k)
  | ClientUnpublish ts | ClientPublish ts => has_kind k ts
  | CreateMicrophoneAudioTrack _ => bool_decide (k = audio)
  | CreateCameraVideoTrack _ => bool_decide (k = video)
  | _ => false
  end.

Definition is_subscribe_of (u : UID) (k : MediaKind) (c : Call) : bool :=
  match c with
  | ClientSubscribe u' k' => bool_decide (u' = u ∧ k' = k)
  | _ => false
  end.

Definition is_close_of (t : LocalTrack) (c : Call) : bool :=
  match c with
  | TrackClose t' => bool_decide (t' = t)
  | _ => false
  end.

Definition is_client_leave (c : Call) : bool :=
  match c with
  | ClientLeave => true
  | _ => false
  end.

Definition is_on_leave (c : Call) : bool :=
  match c with
  | OnLeave => true
  | _ => false
  end.

Definition count_calls (p : Call → bool) (l : list Call) : nat :=
  length (filter (λ c, p c = true) l).

(** The steps of a teardown that are reached when the calls end as the
    oracle says: all of them up to the first one that throws. *)
Fixpoint attempted (o : Oracle) (steps : list Call) : list Call :=
  match steps with
  | [] => []
  | c :: rest =>
      match o c with
      | Returns => c :: attempted o rest
      | Throws _ => [c]
      end
  end.

Definition all_return (o : Oracle) (steps : list Call) : bool :=
  forallb (λ c, match o c with Returns => true | Throws _ => false end) steps.

(** [track?.close()] as a list of calls. *)
Definition close_calls (t : option LocalTrack) : list Call :=
  match t with
  | Some t => [TrackClose t]
  | None => []
  end.

(** The registry holds at most one record per uid. *)
Definition users_unique (w : World) : Prop := NoDup (uid <$> users w).

(** What a join leaves behind when it succeeds: the flag, the listeners on
    the client, and the [client.on] calls in the trace. *)
Definition join_facts (w : World) : bool * list EventName * list Call :=
  (hasJoined w, listeners w, filter (λ c, is_registration c = true) (calls w)).

(** The signal is set and the join has left nothing behind beyond [x]. *)
Definition cancelled_with (x : bool * list EventName * list Call) (w : World) : Prop :=
  aborted w = true ∧ join_facts w = x.

(** ** A sample session *)

Module Sample.

Definition props : Props :=
  {| channelName := "room-1"; userName := "Alice"; appId := "app-id";
     hasSetPlaybackDevice := true |}.

Definition cam1 := {| deviceId := "cam1"; label := "Front camera" |}.
Definition mic1 := {| deviceId := "mic1"; label := "Built-in microphone" |}.
Definition mic2 := {| deviceId := "mic2"; label := "Headset" |}.

Definition fresh : World := initial_world [cam1] [mic1; mic2] [] "cam1" "mic1" "".

(** The effect ran and the join is on its way. *)
Definition joining : World :=
  run props [(all_ok, EvConnectionState CONNECTING)] (start props all_ok 42 fresh).

(** The join resolved; the tracks effect has published both tracks. *)
Definition connected : World :=
  run props [(all_ok, EvConnectionState CONNECTED);
             (all_ok, EvJoinSettled Returns)] joining.

Definition a0 : LocalTrack := {| trackKind := audio; trackDevice := "mic1"; trackId := 0 |}.
Definition v0 : LocalTrack := {| trackKind := video; trackDevice := "cam1"; trackId := 1 |}.

(** bob-42 as the transport describes him while he publishes both kinds,
    and after he stopped his video. *)
Definition bob : RemoteUser :=
  {| uid := UidString "bob-42"; hasAudio := true; hasVideo := true;
     audioTrack := Some 7; videoTrack := Some 8 |}.
Definition bob_audio_only : RemoteUser :=
  {| uid := UidString "bob-42"; hasAudio := true; hasVideo := false;
     audioTrack := Some 7; videoTrack := None |}.

Definition with_bob : World :=
  run props [(all_ok, EvUserPublished bob audio);
             (all_ok, EvUserPublished bob video)] connected.

Definition boom : JsError := {| code := Some "UNEXPECTED_ERROR" |}.

(** A transport on which closing the audio track throws. *)
Definition audio_close_throws : Oracle := fun c =>
  match c with
  | TrackClose t => if bool_decide (trackKind t = audio) then Throws boom else Returns
  | _ => Returns
  end.

(** A transport whose [leave] rejects because the connection is gone. *)
Definition leave_rejects : Oracle := fun c =>
  match c with
  | ClientLeave => Throws boom
  | _ => Returns
  end.

End Sample.

(** ** The rest of the component *)

Definition setCameras (l : list MediaDeviceInfo) (w : World) : World :=
  {| connectionState := connectionState w; cameras := l;
     microphones := microphones w; speakers := speakers w;
     selectedCameraId := selectedCameraId w; selectedMicId := selectedMicId w;
     selectedSpeakerId := selectedSpeakerId w;
     localVideoTrack := localVideoTrack w; localAudioTrack := localAudioTrack w;
     users := users w; hasJoined := hasJoined w; aborted := aborted w;
     joinPending := joinPending w; capturedAudio := capturedAudio w;
     capturedVideo := capturedVideo w; listeners := listeners w;
     calls := calls w; nextTrackId := nextTrackId w |}.

Definition setMicrophones (l : list MediaDeviceInfo) (w : World) : World :=
  {| connectionState := connectionState w; cameras := cameras w;
     microphones := l; speakers := speakers w;
     selectedCameraId := selectedCameraId w; selectedMicId := selectedMicId w;
     selectedSpeakerId := selectedSpeakerId w;
     localVideoTrack := localVideoTrack w; localAudioTrack := localAudioTrack w;
     users := users w; hasJoined := hasJoined w; aborted := aborted w;
     joinPending := joinPending w; capturedAudio := capturedAudio w;
     capturedVideo := capturedVideo w; listeners := listeners w;
     calls := calls w; nextTrackId := nextTrackId w |}.

Definition setSpeakers (l : list MediaDeviceInfo) (w : World) : World :=
  {| connectionState := connectionState w; cameras := cameras w;
     microphones := microphones w; speakers := l;
     selectedCameraId := selectedCameraId w; selectedMicId := selectedMicId w;
     selectedSpeakerId := selectedSpeakerId w;
     localVideoTrack := localVideoTrack w; localAudioTrack := localAudioTrack w;
     users := users w; hasJoined := hasJoined w; aborted := aborted w;
     joinPending := joinPending w; capturedAudio := capturedAudio w;
     capturedVideo := capturedVideo w; listeners := listeners w;
     calls := calls w; nextTrackId := nextTrackId w |}.

(** How an awaited promise that carries a value settles. *)
Inductive Settled (A : Type) := Resolved (a : A) | Rejected (e : JsError).
Arguments Resolved {A} a.
Arguments Rejected {A} e.

Definition await {A} (p : Settled A) : M A := fun w =>
  match p with
  | Resolved a => (Val a, w)
  | Rejected e => (Exn e, w)
  end.

(** [cams[0]]: the first entry, if there is one. *)
Definition first_device (l : list MediaDeviceInfo) : option MediaDeviceInfo := head l.

(** Lines 43-53: [loadDevices].  The three arguments are what the three
    enumerations settle with; the third is [None] when
    [AgoraRTC.getPlaybackDevices] is not defined, and then [spks] is
    [undefined].  Nothing is written before the last [await], and the six
    updates that follow it belong to one render. *)
Definition loadDevices (getCameras getMicrophones : Settled (list MediaDeviceInfo))
    (getPlaybackDevices : option (Settled (list MediaDeviceInfo))) : M unit :=
  cams <- await getCameras ;;
  mics <- await getMicrophones ;;
  spks <- match getPlaybackDevices with
          | Some p => l <- await p ;; ret (Some l)
          | None => ret None
          end ;;
  modify (setCameras cams) ;;
  modify (setMicrophones mics) ;;
  modify (setSpeakers (default [] spks)) ;;
  match first_device cams with
  | Some c => modify (setSelectedCameraId (deviceId c))
  | None => ret tt
  end ;;
  match first_device mics with
  | Some m => modify (setSelectedMicId (deviceId m))
  | None => ret tt
  end ;;
  match spks ≫= first_device with
  | Some s => modify (setSelectedSpeakerId (deviceId s))
  | None => ret tt
  end.

(** The enumeration settles while the component is mounted: its updates
    are followed by a render and by the effects that depend on them. *)
Definition load_step (o : Oracle)
    (getCameras getMicrophones : Settled (list MediaDeviceInfo))
    (getPlaybackDevices : option (Settled (list MediaDeviceInfo)))
    (w : World) : World :=
  let w' := world_of (loadDevices getCameras getMicrophones getPlaybackDevices w) in
  world_of (after_render o w w').

(** Lines 30-31 and 165-177: the two mute flags and their toggles.  The
    flags are state of their own; a toggle reads the track from the world
    and makes one call on it. *)
Record Controls := { isVideoEnabled : bool; isAudioEnabled : bool }.

(** [track.setEnabled(enabled)] *)
Inductive TrackCall := SetEnabled (t : LocalTrack) (enabled : bool).

(** A toggle up to its [await]: the call it makes, if it makes one. *)
Definition toggleVideo_begin (w : World) (c : Controls) : option TrackCall :=
  match localVideoTrack w with
  | Some t => Some (SetEnabled t (negb (isVideoEnabled c)))
  | None => None
  end.

Definition toggleAudio_begin (w : World) (c : Controls) : option TrackCall :=
  match localAudioTrack w with
  | Some t => Some (SetEnabled t (negb (isAudioEnabled c)))
  | None => None
  end.

(** A toggle from the point where its call settles with [r]: the flag
    becomes the value that was computed before the [await]. *)
Definition toggleVideo_resume (pending : TrackCall) (r : Outcome) (c : Controls) : Controls :=
  match r, pending with
  | Returns, SetEnabled _ enabled =>
      {| isVideoEnabled := enabled; isAudioEnabled := isAudioEnabled c |}
  | Throws _, _ => c
  end.

Definition toggleAudio_resume (pending : TrackCall) (r : Outcome) (c : Controls) : Controls :=
  match r, pending with
  | Returns, SetEnabled _ enabled =>
      {| isVideoEnabled := isVideoEnabled c; isAudioEnabled := enabled |}
  | Throws _, _ => c
  end.

(** A toggle that nothing interrupts. *)
Definition toggleVideo (r : Outcome) (w : World) (c : Controls) : Controls * list TrackCall :=
  match toggleVideo_begin w c with
  | Some pending => (toggleVideo_resume pending r c, [pending])
  | None => (c, [])
  end.

Definition toggleAudio (r : Outcome) (w : World) (c : Controls) : Controls * list TrackCall :=
  match toggleAudio_begin w c with
  | Some pending => (toggleAudio_resume pending r c, [pending])
  | None => (c, [])
  end.

(** The uid of line 67. *)
Definition join_uid (props : Props) (rnd : nat) : string :=
  userName props +:+ "-" +:+ pretty rnd.

(** Calls that create, close, publish or unpublish local tracks. *)
Definition is_track_call (c : Call) : bool :=
  match c with
  | TrackClose _ | ClientUnpublish _ | ClientPublish _
  | CreateMicrophoneAudioTrack _ | CreateCameraVideoTrack _ => true
  | _ => false
  end.

(** Calls that play or schedule remote media. *)
Definition is_playback (c : Call) : bool :=
  match c with
  | RemoteAudioPlay _ | SetTimeout _ _ => true
  | _ => false
  end.

(** No local track exists or has ever been touched: the component holds
    none, its cleanup closure holds none, and the trace has no track call
    beyond the [n] it started with. *)
Definition no_tracks (n : nat) (w : World) : Prop :=
  localAudioTrack w = None ∧ localVideoTrack w = None
  ∧ capturedAudio w = None ∧ capturedVideo w = None
  ∧ count_calls is_track_call (calls w) = n.

(** The tracks effect has nothing to do: lines 128-134 and 154. *)
Definition effect_blocked (w : World) : Prop :=
  hasJoined w = false
  ∨ truthy (selectedCameraId w) = false
  ∨ truthy (selectedMicId w) = false.

(** Lines 80-95 around the [await] of line 81: the listener makes the
    subscribe call and is suspended; when the call settles with [r] it
    either rejects or goes on to the update of the registry and to the
    playback.  Other listeners can run between the two halves. *)
Definition on_user_published_begin (user : RemoteUser) (mediaType : MediaKind) : M unit :=
  fire (ClientSubscribe (uid user) mediaType).

Definition on_user_published_resume (user : RemoteUser) (mediaType : MediaKind)
    (r : Outcome) : M unit :=
  match r with
  | Throws e => throw e
  | Returns =>
      modify (setUsers (add_user user)) ;;
      match mediaType, audioTrack user with
      | audio, Some _ => fire (RemoteAudioPlay (uid user))
      | _, _ => ret tt
      end ;;
      match mediaType with
      | video => emit (SetTimeout 300 (uid user))
      | audio => ret tt
      end
  end.

(** A transport on which every subscription is refused. *)
Definition subscribe_rejects (e : JsError) : Oracle := fun c =>
  match c with
  | ClientSubscribe _ _ => Throws e
  | _ => Returns
  end.

(** The listeners of one session: none while the join is pending, and
    afterwards at most the two of lines 80 and 97, in that order. *)
Definition listeners_once (w : World) : Prop :=
  if joinPending w then listeners w = []
  else listeners w `prefix_of` [user_published; user_unpublished].

(** ** Rules for handler bodies *)

Section Rules.
Context {A B : Type}.
Implicit Types P : World → Prop.

Lemma respects_ret P (a : A) : respects P (ret a).
Proof. by intros w. Qed.

Lemma respects_throw P e : respects P (@throw A e).
Proof. by intros w. Qed.

Lemma respects_gets P (g : World → A) : respects P (gets g).
Proof. by intros w. Qed.

Lemma respects_modify P (g : World → World) :
  (∀ w, P w → P (g w)) → respects P (modify g).
Proof. intros Hg w. apply Hg. Qed.

Lemma respects_bind P (m : M A) (k : A → M B) :
  respects P m → (∀ a, respects P (k a)) → respects P (bind m k).
Proof.
  intros Hm Hk w Hw. unfold bind. specialize (Hm w Hw).
  destruct (m w) as [[a|e] w1]; simpl in *; [by apply Hk | done].
Qed.

Lemma respects_try_catch P (m : M A) (h : JsError → M A) :
  respects P m → (∀ e, respects P (h e)) → respects P (try_catch m h).
Proof.
  intros Hm Hh w Hw. unfold try_catch. specialize (Hm w Hw).
  destruct (m w) as [[a|e] w1]; simpl in *; [done | by apply Hh].
Qed.
End Rules.

Lemma respects_call P o c :
  (∀ w, P w → P (record_call c w)) → respects P (call o c).
Proof. intros Hc w Hw. unfold call. destruct (o c); simpl; auto. Qed.

Lemma respects_detach P m : respects P m → respects P (detach m).
Proof. intros Hm w Hw. by apply Hm. Qed.

Lemma respects_times P n m : respects P m → respects P (times n m).
Proof.
  intros Hm. induction n as [|n IH]; simpl.
  - apply respects_ret.
  - apply respects_bind; auto.
Qed.

(** Break a handler body into its primitive steps; what is left are the
    state updates and the recorded calls, one goal each. *)
Ltac respects_step :=
  match goal with
  | |- respects _ (bind _ _) => apply respects_bind; [| intros ?]
  | |- respects _ (try_catch _ _) => apply respects_try_catch; [| intros ?]
  | |- respects _ (ret _) => apply respects_ret
  | |- respects _ (throw _) => apply respects_throw
  | |- respects _ (gets _) => apply respects_gets
  | |- respects _ (detach _) => apply respects_detach
  | |- respects _ (times _ _) => apply respects_times
  | |- respects _ (call _ _) => apply respects_call; intros ? ?
  | |- respects _ (fire _) => apply respects_modify; intros ? ?
  | |- respects _ (emit _) => apply respects_modify; intros ? ?
  | |- respects _ (modify _) => apply respects_modify; intros ? ?
  | |- respects _ (let _ := _ in _) => cbv zeta
  | |- respects _ (if ?b then _ else _) => destruct b
  | |- respects _ (match ?x with _ => _ end) => destruct x
  end.

Ltac respects_all := repeat respects_step.

Ltac unfold_handlers :=
  unfold mount, handle, deliver, effect_cleanup, cleanup, handleLeave,
    after_render, tracks_effect, setupTracks, create_track, on_user_published,
    on_user_unpublished, select_camera, select_microphone, select_speaker,
    init_begin, init_catch, register, opt_close.

Lemma new_calls_app w w' l : calls w' = calls w ++ l → new_calls w w' = l.
Proof. intros H. unfold new_calls. rewrite H. apply drop_app_length. Qed.

(** ** The registry: lines 83-86 and 98 *)

Lemma add_user_present user prev :
  uid user ∈ uid <$> prev → add_user user prev = prev.
Proof.
  intros (u & Hu & Hin)%list_elem_of_fmap. unfold add_user.
  destruct (list_find_elem_of (λ u, uid u = uid user) prev u) as [[i x] ->]; done.
Qed.

Lemma add_user_absent user prev :
  uid user ∉ uid <$> prev → add_user user prev = prev ++ [user].
Proof.
  intros Hnot. unfold add_user.
  destruct (list_find _ prev) as [[i x]|] eqn:E; [|done].
  apply list_find_Some in E as (Hl & Hx & _). destruct Hnot.
  rewrite <- Hx. apply list_elem_of_fmap_2. by eapply list_elem_of_lookup_2.
Qed.

Lemma add_user_NoDup user prev :
  NoDup (uid <$> prev) → NoDup (uid <$> add_user user prev).
Proof.
  intros Hnd. destruct (decide (uid user ∈ uid <$> prev)) as [Hin|Hnot].
  - by rewrite add_user_present.
  - rewrite add_user_absent, fmap_app by done. apply NoDup_app.
    split_and!; [done | | apply NoDup_singleton].
    intros x Hx ->%list_elem_of_singleton. done.
Qed.

Lemma remove_user_elem_of user prev u :
  u ∈ remove_user user prev ↔ u ∈ prev ∧ uid u ≠ uid user.
Proof. unfold remove_user. rewrite list_elem_of_filter. tauto. Qed.

Lemma remove_user_NoDup user prev :
  NoDup (uid <$> prev) → NoDup (uid <$> remove_user user prev).
Proof.
  intros Hnd. eapply sublist_NoDup; [exact Hnd |].
  apply fmap_sublist, sublist_filter.
Qed.

Lemma handle_users_unique props o e : respects users_unique (handle props o e).
Proof.
  destruct e; unfold_handlers; unfold init_resume; unfold_handlers; respects_all;
    try done.
  all: unfold users_unique in *; simpl.
  - by apply add_user_NoDup.
  - by apply remove_user_NoDup.
Qed.

Lemma after_render_users_unique o w0 : respects users_unique (after_render o w0).
Proof. unfold_handlers. respects_all; done. Qed.

Lemma step_users_unique props oe w : users_unique w → users_unique (step props oe w).
Proof.
  intros Hw. unfold step. apply after_render_users_unique.
  by apply handle_users_unique.
Qed.


Lemma run_cons props oe evs w :
  run props (oe :: evs) w = run props evs (step props oe w).
Proof. done. Qed.

Lemma run_respects props (P : World → Prop) evs :
  (∀ oe w, oe ∈ evs → P w → P (step props oe w)) →
  ∀ w, P w → P (run props evs w).
Proof.
  induction evs as [|oe evs IH]; intros Hstep w Hw; [done|].
  rewrite run_cons. apply IH.
  - intros oe' w' Hin. apply Hstep. by right.
  - apply Hstep; [by left | done].
Qed.

Lemma published_present_users props o user mediaType w :
  uid user ∈ uid <$> users w →
  users (step props (o, EvUserPublished user mediaType) w) = users w.
Proof.
  intros Hin. unfold step. cbn [fst snd].
  assert (∀ w0, respects (λ w', users w' = users w) (after_render o w0)) as Hr.
  { intros w0. unfold_handlers. respects_all; done. }
  apply Hr.
  assert (respects (λ w', users w' = users w)
            (handle props o (EvUserPublished user mediaType))) as Hh.
  { unfold_handlers. respects_all; try done.
    simpl. rewrite H. by apply add_user_present. }
  by apply Hh.
Qed.

(** C8.  Whatever the transport reports and whatever else happens to the
    component, in any order, the registry never holds two records with the
    same uid; and a [user-published] event for a uid that is already in the
    registry leaves the participant list as it was. *)
Theorem registry_uids_unique props evs w :
  NoDup (uid <$> users w) →
  NoDup (uid <$> users (run props evs w))
  ∧ (∀ o user mediaType,
       uid user ∈ uid <$> users w →
       users (step props (o, EvUserPublished user mediaType) w) = users w).
Proof.
  intros Hw. split.
  - apply (run_respects props users_unique); [|done].
    intros oe w' _. apply step_users_unique.
  - intros o user mediaType. apply published_present_users.
Qed.

Lemma registry_uids_unique_witness :
  NoDup (uid <$> users Sample.connected)
  ∧ NoDup (uid <$> users
             (run Sample.props
                [(all_ok, EvUserPublished Sample.bob video);
                 (all_ok, EvUserPublished Sample.bob audio);
                 (all_ok, EvUserUnpublished Sample.bob_audio_only);
                 (all_ok, EvUserPublished Sample.bob video)]
                Sample.connected)).
Proof.
  split; [vm_compute; constructor|].
  refine (proj1 (registry_uids_unique Sample.props _ Sample.connected _)).
  vm_compute. constructor.
Defined.

Lemma join_facts_record_call c w :
  is_registration c = false → join_facts (record_call c w) = join_facts w.
Proof.
  intros Hc. unfold join_facts. simpl. rewrite filter_app.
  rewrite (filter_cons_False _ c); [by rewrite filter_nil, app_nil_r|].
  by rewrite Hc.
Qed.

Ltac join_facts_goal :=
  match goal with
  | H : join_facts ?w = ?x |- join_facts (record_call _ ?w) = ?x =>
      rewrite join_facts_record_call; [exact H | reflexivity]
  | H : join_facts ?w = ?x |- join_facts _ = ?x => exact H
  | H : cancelled_with ?x ?w |- cancelled_with ?x (record_call _ ?w) =>
      destruct H as [? H]; split;
      [assumption | rewrite join_facts_record_call; [exact H | reflexivity]]
  | H : cancelled_with ?x ?w |- cancelled_with ?x _ => exact H
  end.

Lemma handle_join_facts props o e x :
  (∀ r, e ≠ EvJoinSettled r) →
  respects (λ w, join_facts w = x) (handle props o e).
Proof.
  intros He. destruct e; [by destruct (He r)|..];
    unfold_handlers; respects_all; join_facts_goal.
Qed.

Lemma after_render_join_facts o w0 x :
  respects (λ w, join_facts w = x) (after_render o w0).
Proof. unfold_handlers. respects_all; join_facts_goal. Qed.





Lemma step_join_facts props oe x w :
  (∀ r, oe.2 ≠ EvJoinSettled r) →
  join_facts w = x → join_facts (step props oe w) = x.
Proof.
  intros He Hw. unfold step.
  apply (after_render_join_facts oe.1 w x).
  by apply (handle_join_facts props oe.1 oe.2 x).
Qed.



Lemma start_join_facts props o rnd w :
  join_facts (start props o rnd w) = join_facts w.
Proof.
  unfold start. revert w.
  change (∀ w, join_facts (world_of (mount props o rnd w)) = join_facts w).
  intros w.
  assert (∀ x, respects (λ w, join_facts w = x) (mount props o rnd)) as H.
  { intros x. unfold_handlers. respects_all; join_facts_goal. }
  by apply H.
Qed.

Lemma run_pre_join_facts props pre x w :
  Forall (λ oe : Oracle * Event, ∀ r, oe.2 ≠ EvJoinSettled r) pre →
  join_facts w = x → join_facts (run props pre w) = x.
Proof.
  intros Hpre. apply (run_respects props (λ w, join_facts w = x)).
  intros oe w' Hin. apply step_join_facts.
  by apply (proj1 (Forall_forall _ _) Hpre).
Qed.





(** Without the cancellation the same resolution connects. *)
Example uncancelled_join_connects :
  hasJoined Sample.connected = true
  ∧ listeners Sample.connected = [user_published; user_unpublished].
Proof. split; by vm_compute. Qed.

(** ** The pending join *)

Lemma handle_joinPending props o e b :
  (∀ r, e ≠ EvJoinSettled r) →
  respects (λ w, joinPending w = b) (handle props o e).
Proof.
  intros He. destruct e; [by destruct (He r)|..];
    unfold_handlers; respects_all; done.
Qed.

Lemma after_render_joinPending o w0 b :
  respects (λ w, joinPending w = b) (after_render o w0).
Proof. unfold_handlers. respects_all; done. Qed.

Lemma step_joinPending props oe b w :
  (∀ r, oe.2 ≠ EvJoinSettled r) →
  joinPending w = b → joinPending (step props oe w) = b.
Proof.
  intros He Hw. unfold step.
  apply (after_render_joinPending oe.1 w b).
  by apply (handle_joinPending props oe.1 oe.2 b).
Qed.

(** From [DISCONNECTED] the effect body reaches the [await]. *)
Lemma start_joinPending props o rnd w :
  connectionState w = DISCONNECTED → joinPending (start props o rnd w) = true.
Proof.
  intros Hst. unfold start, mount, init_begin, bind, modify, gets, detach,
    try_catch, fire, world_of. simpl. rewrite Hst. by simpl.
Qed.

Lemma after_render_same_deps o w0 w :
  tracks_deps w = tracks_deps w0 → after_render o w0 w = (Val tt, w).
Proof.
  intros Hd. unfold after_render, bind, gets. rewrite Hd.
  by rewrite bool_decide_false by (by intros []).
Qed.

Lemma init_catch_calls o e w :
  tracks_deps (world_of (init_catch o e w)) = tracks_deps w
  ∧ calls (world_of (init_catch o e w)) =
      calls w ++
      (if bool_decide (code e = Some "OPERATION_ABORTED") then []
       else [ConsoleError "Error initializing video call:";
             ToastError "Failed to connect to video call";
             OnLeave]).
Proof.
  unfold init_catch. destruct (decide (code e = Some "OPERATION_ABORTED")) as [He|He].
  - rewrite bool_decide_false by (by intros []).
    rewrite bool_decide_true by done. simpl. by rewrite app_nil_r.
  - rewrite bool_decide_true by done. rewrite (bool_decide_false _ He).
    unfold bind, emit, modify, call. simpl.
    destruct (o OnLeave); simpl; by rewrite <- !app_assoc.
Qed.

Lemma handle_join_settled props o r w :
  joinPending w = true →
  world_of (handle props o (EvJoinSettled r) w) = world_of (init_resume o r w).
Proof. intros Hp. unfold handle, bind, gets. by rewrite Hp. Qed.

(** C10.  When the pending join rejects with an error whose code is
    ['OPERATION_ABORTED'] the component makes no call at all: no error
    toast, no [onLeave].  When it rejects with any other error (another
    code, or none) it logs the error, shows the error toast and calls
    [onLeave] once, and nothing else. *)
Theorem join_rejection_report props o0 rnd w0 pre o e :
  connectionState w0 = DISCONNECTED →
  Forall (λ oe : Oracle * Event, ∀ r, oe.2 ≠ EvJoinSettled r) pre →
  let w := run props pre (start props o0 rnd w0) in
  let w' := step props (o, EvJoinSettled (Throws e)) w in
  (code e = Some "OPERATION_ABORTED" → new_calls w w' = [])
  ∧ (code e ≠ Some "OPERATION_ABORTED" →
     new_calls w w' = [ConsoleError "Error initializing video call:";
                       ToastError "Failed to connect to video call";
                       OnLeave]
     ∧ count_calls is_on_leave (new_calls w w') = 1).
Proof.
  intros Hst Hpre w w'.
  assert (joinPending w = true) as Hp.
  { apply (run_respects props (λ w, joinPending w = true)).
    - intros oe w1 Hin. apply step_joinPending.
      by apply (proj1 (Forall_forall _ _) Hpre).
    - by apply start_joinPending. }
  assert (calls w' = calls w ++
      (if bool_decide (code e = Some "OPERATION_ABORTED") then []
       else [ConsoleError "Error initializing video call:";
             ToastError "Failed to connect to video call";
             OnLeave])) as Hcalls.
  { unfold w', step. cbn [fst snd]. rewrite (handle_join_settled _ _ _ _ Hp).
    change (world_of (init_resume o (Throws e) w))
      with (world_of (init_catch o e (set_joinPending false w))).
    destruct (init_catch_calls o e (set_joinPending false w)) as [Hd Hc].
    rewrite after_render_same_deps by (by rewrite Hd). exact Hc. }
  clearbody w w'. split.
  - intros He. apply new_calls_app. by rewrite Hcalls, bool_decide_true.
  - intros He. rewrite (new_calls_app w w' _ Hcalls).
    by rewrite bool_decide_false.
Qed.

Lemma join_rejection_report_witness :
  connectionState Sample.fresh = DISCONNECTED
  ∧ Forall (λ oe : Oracle * Event, ∀ r, oe.2 ≠ EvJoinSettled r)
      [(all_ok, EvConnectionState CONNECTING)]
  ∧ new_calls Sample.joining
      (step Sample.props
         (all_ok, EvJoinSettled (Throws {| code := Some "CAN_NOT_GET_GATEWAY_SERVER" |}))
         Sample.joining) =
      [ConsoleError "Error initializing video call:";
       ToastError "Failed to connect to video call";
       OnLeave].
Proof.
  assert (Forall (λ oe : Oracle * Event, ∀ r, oe.2 ≠ EvJoinSettled r)
            [(all_ok, EvConnectionState CONNECTING)]) as Hpre.
  { constructor; [by intros r | constructor]. }
  split; [done|]. split; [exact Hpre|].
  refine (proj1 (proj2 (join_rejection_report Sample.props all_ok 42 Sample.fresh
                          [(all_ok, EvConnectionState CONNECTING)] all_ok
                          {| code := Some "CAN_NOT_GET_GATEWAY_SERVER" |}
                          _ Hpre) _)); done.
Defined.

(** ** The guard of [init] *)

(** C4, as the code has it.  When the connection state is not
    [DISCONNECTED], [init] returns at once after a console warning: no join,
    no other transport call, no change of state; it neither throws nor
    reports an error to the user or to the caller. *)
Theorem init_guard props o rnd w :
  connectionState w ≠ DISCONNECTED →
  let r := init_begin props o rnd w in
  result_of r = Val tt
  ∧ world_of r = record_call (ConsoleWarn "Client already connected or connecting") w
  ∧ new_calls w (world_of r) = [ConsoleWarn "Client already connected or connecting"]
  ∧ count_calls is_transport (new_calls w (world_of r)) = 0
  ∧ count_calls is_error_report (new_calls w (world_of r)) = 0.
Proof.
  intros Hst r.
  assert (r = (Val tt, record_call (ConsoleWarn "Client already connected or connecting") w))
    as ->.
  { unfold r, init_begin, bind, gets. by rewrite bool_decide_true. }
  assert (new_calls w (record_call (ConsoleWarn "Client already connected or connecting") w)
          = [ConsoleWarn "Client already connected or connecting"]) as Hn.
  { by apply new_calls_app. }
  simpl. rewrite Hn. done.
Qed.

Lemma init_guard_witness :
  connectionState Sample.connected ≠ DISCONNECTED
  ∧ result_of (init_begin Sample.props all_ok 7 Sample.connected) = Val tt.
Proof.
  split; [by vm_compute|].
  apply (init_guard Sample.props all_ok 7 Sample.connected). by vm_compute.
Defined.

(** C4 as stated fails: on a connected client [init] ends normally and no
    error reaches the caller. *)
Lemma join_while_connected_is_silent :
  connectionState Sample.connected ≠ DISCONNECTED
  ∧ result_of (init_begin Sample.props all_ok 7 Sample.connected) = Val tt
  ∧ count_calls is_error_report
      (new_calls Sample.connected
         (world_of (init_begin Sample.props all_ok 7 Sample.connected))) = 0.
Proof. split; [by vm_compute|]. split; by vm_compute. Qed.

(** ** The two listeners *)

Lemma remove_user_idemp user prev :
  remove_user user (remove_user user prev) = remove_user user prev.
Proof.
  unfold remove_user. rewrite list_filter_filter.
  apply list_filter_iff. tauto.
Qed.

Lemma unpublished_times n user w :
  users (world_of (times (S n) (detach (on_user_unpublished user)) w))
  = remove_user user (users w)
  ∧ tracks_deps (world_of (times (S n) (detach (on_user_unpublished user)) w))
    = tracks_deps w.
Proof.
  revert w. induction n as [|n IH]; intros w; [done|].
  change (times (S (S n)) (detach (on_user_unpublished user)) w)
    with (times (S n) (detach (on_user_unpublished user))
            (setUsers (remove_user user) w)).
  destruct (IH (setUsers (remove_user user) w)) as [-> ->].
  simpl. by rewrite remove_user_idemp.
Qed.

(** C2, as the code has it.  On a [user-unpublished] event the record of
    that uid leaves the registry, whatever media kind was withdrawn and
    whatever the participant still publishes; the records of the other
    participants stay, in their order. *)
Theorem unpublished_removes_participant props o user w :
  user_unpublished ∈ listeners w →
  let w' := step props (o, EvUserUnpublished user) w in
  users w' = filter (λ u, uid u ≠ uid user) (users w)
  ∧ (∀ u, u ∈ users w' ↔ u ∈ users w ∧ uid u ≠ uid user).
Proof.
  intros Hin w'.
  assert (users w' = remove_user user (users w)) as Hw'.
  { unfold w', step, handle, deliver. cbn [fst snd].
    unfold bind at 1, gets at 1.
    destruct (filter (λ e, e = user_unpublished) (listeners w)) as [|e l] eqn:E.
    { apply (filter_nil_not_elem_of _ _ user_unpublished) in E; done. }
    cbn [length].
    destruct (unpublished_times (length l) user w) as [Hu Hd].
    by rewrite after_render_same_deps. }
  split; [done|]. intros u. rewrite Hw'. apply remove_user_elem_of.
Qed.

Lemma unpublished_removes_participant_witness :
  user_unpublished ∈ listeners Sample.with_bob
  ∧ users (step Sample.props (all_ok, EvUserUnpublished Sample.bob) Sample.with_bob)
    = filter (λ u, uid u ≠ uid Sample.bob) (users Sample.with_bob).
Proof.
  split; [vm_compute; by right; left|].
  apply (unpublished_removes_participant Sample.props all_ok Sample.bob Sample.with_bob).
  vm_compute. by right; left.
Defined.

(** C2 as stated fails: bob-42 publishes audio and video and withdraws his
    video; his audio is still published, and he is gone from the registry. *)
Lemma unpublished_video_drops_audio_participant :
  hasAudio Sample.bob_audio_only = true
  ∧ Sample.bob ∈ users Sample.with_bob
  ∧ uid Sample.bob = uid Sample.bob_audio_only
  ∧ users (step Sample.props (all_ok, EvUserUnpublished Sample.bob_audio_only)
             Sample.with_bob) = [].
Proof. split_and!; try done. vm_compute. by left. Qed.

(** C5, as the code has it.  A [user-published] event for a uid that is
    already in the registry adds no second record, but it is no no-op: the
    listener first calls [client.subscribe] for that uid and kind again. *)
Theorem published_again_resubscribes o user mediaType w :
  uid user ∈ uid <$> users w →
  let w' := world_of (on_user_published o user mediaType w) in
  users w' = users w
  ∧ ∃ rest, new_calls w w' = ClientSubscribe (uid user) mediaType :: rest.
Proof.
  intros Hin w'. unfold w', on_user_published.
  unfold bind at 1, call. destruct (o (ClientSubscribe _ _)) as [|e].
  - split.
    + assert (respects (λ w0, users w0 = users w)
        (modify (setUsers (add_user user)) ;;
          match mediaType, audioTrack user with
          | audio, Some _ => fire (RemoteAudioPlay (uid user))
          | _, _ => ret tt
          end ;;
          match mediaType with
          | video => emit (SetTimeout 300 (uid user))
          | audio => ret tt
          end)) as H.
      { respects_all; try done. simpl. rewrite H. by apply add_user_present. }
      by apply H.
    + unfold bind, modify, fire, emit, ret.
      destruct mediaType, (audioTrack user); simpl; eexists;
        apply new_calls_app; simpl; by rewrite <- ?app_assoc.
  - split; [done|]. exists []. by apply new_calls_app.
Qed.

Lemma published_again_resubscribes_witness :
  uid Sample.bob ∈ uid <$> users Sample.with_bob
  ∧ users (world_of (on_user_published all_ok Sample.bob video Sample.with_bob))
    = users Sample.with_bob.
Proof.
  split; [vm_compute; by left|].
  apply (published_again_resubscribes all_ok Sample.bob video Sample.with_bob).
  vm_compute. by left.
Defined.

(** C5 as stated fails: bob-42's video is subscribed, a second
    [user-published] for the same pair issues one more subscribe call. *)
Lemma second_published_subscribes_again :
  uid Sample.bob ∈ uid <$> users Sample.with_bob
  ∧ count_calls (is_subscribe_of (uid Sample.bob) video) (calls Sample.with_bob) = 1
  ∧ count_calls (is_subscribe_of (uid Sample.bob) video)
      (new_calls Sample.with_bob
         (step Sample.props (all_ok, EvUserPublished Sample.bob video) Sample.with_bob))
    = 1.
Proof. split_and!; [vm_compute; by left | by vm_compute..]. Qed.

(** ** Teardown *)

Lemma handle_users props o e l :
  (∀ u k, e ≠ EvUserPublished u k) → (∀ u, e ≠ EvUserUnpublished u) →
  respects (λ w, users w = l) (handle props o e).
Proof.
  intros Hp Hu. destruct e; [| |by destruct (Hp user mediaType)|by destruct (Hu user)|..];
    unfold_handlers; unfold init_resume; unfold_handlers; respects_all; done.
Qed.

Lemma after_render_users o w0 l : respects (λ w, users w = l) (after_render o w0).
Proof. unfold_handlers. respects_all; done. Qed.

(** C7, as the code has it.  Neither the Leave button nor the cleanup of
    the effect touches the participant list: it holds after the teardown
    what it held before. *)
Theorem leave_keeps_registry props o w :
  users (step props (o, EvHandleLeave) w) = users w
  ∧ users (step props (o, EvCleanup) w) = users w.
Proof.
  split; unfold step; cbn [fst snd];
    apply (after_render_users o w (users w));
    by apply (handle_users props o _ (users w)).
Qed.

(** C7 as stated fails: with bob-42 in the registry, he is still there
    after the Leave button and the cleanup have run. *)
Lemma leave_does_not_clear_registry :
  users Sample.with_bob = [Sample.bob]
  ∧ users (run Sample.props [(all_ok, EvHandleLeave); (all_ok, EvCleanup)]
             Sample.with_bob) = [Sample.bob].
Proof. split; by vm_compute. Qed.

(** C6, as the code has it.  The cleanup of the effect never fails towards
    its caller and logs a warning when a step threw, but it stops at that
    step: the calls made are those up to and including the first one that
    throws.  In [handleLeave] the transport leave is not awaited: when the
    closes and [onLeave] return, all steps run whether or not the leave
    rejects. *)
Theorem teardown_is_fail_fast o a v w :
  (let r := cleanup o a v w in
   let steps := close_calls a ++ close_calls v ++ [ClientLeave] in
   result_of r = Val tt
   ∧ new_calls w (world_of r) =
       attempted o steps ++
       (if all_return o steps then [] else [ConsoleWarn "Error during cleanup:"]))
  ∧ ((∀ t, o (TrackClose t) = Returns) → o OnLeave = Returns →
     let r := handleLeave o w in
     result_of r = Val tt
     ∧ new_calls w (world_of r) =
         close_calls (localAudioTrack w) ++ close_calls (localVideoTrack w) ++
         [ClientLeave; OnLeave; ToastSuccess "Left video call"]).
Proof.
  split.
  - unfold cleanup, try_catch, bind, opt_close, call, emit, modify, ret.
    destruct a as [a|], v as [v|]; simpl;
      repeat (match goal with |- context [o ?c] => destruct (o c) end; simpl);
      (split; [done | apply new_calls_app; simpl; by rewrite <- ?app_assoc]).
  - intros Hclose Hleave.
    unfold handleLeave, bind, gets, opt_close, call, fire, emit, modify, ret.
    destruct (localAudioTrack w) as [a'|], (localVideoTrack w) as [v'|]; simpl;
      rewrite ?Hclose, ?Hleave; simpl; rewrite ?Hclose, ?Hleave; simpl;
      (split; [done | apply new_calls_app; simpl; by rewrite <- ?app_assoc]).
Qed.

Lemma teardown_is_fail_fast_witness :
  (∀ t, Sample.leave_rejects (TrackClose t) = Returns)
  ∧ Sample.leave_rejects OnLeave = Returns
  ∧ new_calls Sample.connected
      (world_of (handleLeave Sample.leave_rejects Sample.connected)) =
      [TrackClose Sample.a0; TrackClose Sample.v0; ClientLeave; OnLeave;
       ToastSuccess "Left video call"].
Proof.
  split; [done|]. split; [done|].
  apply (teardown_is_fail_fast Sample.leave_rejects None None Sample.connected); done.
Defined.

(** C6 as stated fails: when closing the audio track throws, the cleanup
    closes no video track and never calls [client.leave]. *)
Lemma cleanup_stops_at_first_failure :
  let w' := world_of (cleanup Sample.audio_close_throws (Some Sample.a0)
                        (Some Sample.v0) Sample.connected) in
  new_calls Sample.connected w' =
    [TrackClose Sample.a0; ConsoleWarn "Error during cleanup:"]
  ∧ count_calls (is_close_of Sample.v0)
      (new_calls Sample.connected w') = 0
  ∧ count_calls is_client_leave
      (new_calls Sample.connected w') = 0.
Proof. split_and!; by vm_compute. Qed.

(** ** Changing the microphone *)

(** C3, as the code has it.  Selecting another microphone while connected
    with both tracks published closes both tracks, unpublishes both in one
    call, creates a microphone track for the new device and a camera track
    for the unchanged camera, and publishes both in one call: one close, one
    unpublish, one create and one publish for the audio track, and the same
    four for the video track. *)
Theorem new_microphone_rebuilds_both_tracks props o w mic a v :
  hasJoined w = true →
  connectionState w = CONNECTED →
  truthy (selectedCameraId w) = true →
  truthy mic = true →
  mic ≠ selectedMicId w →
  localAudioTrack w = Some a → trackKind a = audio →
  localVideoTrack w = Some v → trackKind v = video →
  (∀ c, o c = Returns) →
  let w' := step props (o, EvSelectMicrophone mic) w in
  let a' := {| trackKind := audio; trackDevice := mic; trackId := nextTrackId w |} in
  let v' := {| trackKind := video; trackDevice := selectedCameraId w;
               trackId := S (nextTrackId w) |} in
  new_calls w w' =
    [TrackClose a; TrackClose v; ClientUnpublish [a; v];
     CreateMicrophoneAudioTrack mic; CreateCameraVideoTrack (selectedCameraId w);
     ClientPublish [a'; v']]
  ∧ localAudioTrack w' = Some a' ∧ localVideoTrack w' = Some v'
  ∧ count_calls (affects_kind audio) (new_calls w w') = 4
  ∧ count_calls (affects_kind video) (new_calls w w') = 4.
Proof.
  intros Hj Hst Hcam Hmic Hne Ha Hka Hv Hkv Hok w' a' v'.
  assert (w' = record_call (ClientPublish [a'; v'])
    (setLocalVideoTrack (Some v') (setLocalAudioTrack (Some a')
      (bump_trackId (record_call (CreateCameraVideoTrack (selectedCameraId w))
        (bump_trackId (record_call (CreateMicrophoneAudioTrack mic)
          (record_call (ClientUnpublish [a; v])
            (record_call (TrackClose v) (record_call (TrackClose a)
              (setSelectedMicId mic w))))))))))) as Hw'.
  { unfold w', step, handle, select_microphone. cbn [fst snd].
    change (world_of (modify (setSelectedMicId mic) w)) with (setSelectedMicId mic w).
    unfold after_render, bind at 1, gets at 1.
    rewrite bool_decide_true by (unfold tracks_deps; simpl; congruence).
    unfold tracks_effect, setupTracks, create_track, bind, gets, detach,
      try_catch, opt_close, call, modify, ret. simpl.
    repeat (progress (rewrite ?Hcam, ?Hmic, ?Hj, ?Hst, ?Ha, ?Hv, ?Hok; simpl)).
    done. }
  assert (new_calls w w' =
    [TrackClose a; TrackClose v; ClientUnpublish [a; v];
     CreateMicrophoneAudioTrack mic; CreateCameraVideoTrack (selectedCameraId w);
     ClientPublish [a'; v']]) as Hn.
  { apply new_calls_app. rewrite Hw'. simpl. by rewrite <- !app_assoc. }
  rewrite Hn, Hw'. split_and!; try done.
  - unfold count_calls. rewrite !filter_cons, filter_nil. unfold affects_kind, has_kind.
    simpl. by rewrite Hka, Hkv.
  - unfold count_calls. rewrite !filter_cons, filter_nil. unfold affects_kind, has_kind.
    simpl. by rewrite Hka, Hkv.
Qed.

Lemma new_microphone_rebuilds_both_tracks_witness :
  hasJoined Sample.connected = true
  ∧ connectionState Sample.connected = CONNECTED
  ∧ localAudioTrack Sample.connected = Some Sample.a0
  ∧ localVideoTrack Sample.connected = Some Sample.v0
  ∧ new_calls Sample.connected
      (step Sample.props (all_ok, EvSelectMicrophone "mic2") Sample.connected) =
      [TrackClose Sample.a0; TrackClose Sample.v0;
       ClientUnpublish [Sample.a0; Sample.v0];
       CreateMicrophoneAudioTrack "mic2"; CreateCameraVideoTrack "cam1";
       ClientPublish [{| trackKind := audio; trackDevice := "mic2"; trackId := 2 |};
                      {| trackKind := video; trackDevice := "cam1"; trackId := 3 |}]].
Proof.
  do 4 (split; [by vm_compute|]).
  refine (proj1 (new_microphone_rebuilds_both_tracks Sample.props all_ok
                   Sample.connected "mic2" Sample.a0 Sample.v0
                   _ _ _ _ _ _ _ _ _ _)); by vm_compute.
Defined.

(** C3 as stated fails: after selecting the second microphone four calls
    touch the video track, one of them the close of the published one. *)
Lemma new_microphone_touches_video :
  hasJoined Sample.connected = true
  ∧ connectionState Sample.connected = CONNECTED
  ∧ localVideoTrack Sample.connected = Some Sample.v0
  ∧ selectedMicId Sample.connected = "mic1"
  ∧ count_calls (affects_kind video)
      (new_calls Sample.connected
         (step Sample.props (all_ok, EvSelectMicrophone "mic2") Sample.connected)) = 4
  ∧ count_calls (is_close_of Sample.v0)
      (new_calls Sample.connected
         (step Sample.props (all_ok, EvSelectMicrophone "mic2") Sample.connected)) = 1.
Proof. split_and!; by vm_compute. Qed.

(** ** The scenario of the participant who comes and goes *)

Example bob_comes_and_goes :
  let w1 := step Sample.props (all_ok, EvUserPublished Sample.bob video) Sample.connected in
  let w2 := step Sample.props (all_ok, EvUserUnpublished Sample.bob) w1 in
  users w1 = [Sample.bob] ∧ users w2 = [].
Proof. split; by vm_compute. Qed.

(** ** Enumerating the devices *)

Lemma first_device_listed l d :
  first_device l = Some d → deviceId d ∈ deviceId <$> l.
Proof.
  destruct l as [|d' l]; intros H; simplify_eq/=. by left.
Qed.

(** X1.  When the three enumerations resolve, the lists are stored as they
    came (no speaker list when the capability is missing), each selection
    becomes the id of the first device of its list, so it is one of the
    listed ids, and a selection whose list is empty stays as it was; no call
    is recorded. *)
Theorem loadDevices_defaults cams mics spks w :
  let r := loadDevices (Resolved cams) (Resolved mics) (Resolved <$> spks) w in
  let w' := world_of r in
  result_of r = Val tt
  ∧ cameras w' = cams ∧ microphones w' = mics ∧ speakers w' = default [] spks
  ∧ selectedCameraId w' = from_option deviceId (selectedCameraId w) (first_device cams)
  ∧ selectedMicId w' = from_option deviceId (selectedMicId w) (first_device mics)
  ∧ selectedSpeakerId w' =
      from_option deviceId (selectedSpeakerId w) (spks ≫= first_device)
  ∧ (cams = [] ∨ selectedCameraId w' ∈ deviceId <$> cams)
  ∧ (mics = [] ∨ selectedMicId w' ∈ deviceId <$> mics)
  ∧ (speakers w' = [] ∨ selectedSpeakerId w' ∈ deviceId <$> speakers w')
  ∧ calls w' = calls w.
Proof.
  intros r w'. unfold w', r, loadDevices, bind, await, modify, ret.
  destruct spks as [spks|]; simpl;
    destruct cams as [|c cams], mics as [|m mics]; simpl;
    try (destruct spks as [|s spks]; simpl);
    split_and!; try done; try (by left); by (right; left).
Qed.

(** X2.  When one of the enumerations rejects, nothing is written: the
    lists and the selections are those from before, also the ones whose
    enumeration had succeeded, and the rejection is the result of
    [loadDevices]. *)
Theorem loadDevices_rejection getCameras getMicrophones getPlaybackDevices w :
  (∃ e, getCameras = Rejected e)
  ∨ (∃ e, getMicrophones = Rejected e)
  ∨ (∃ e, getPlaybackDevices = Some (Rejected e)) →
  let r := loadDevices getCameras getMicrophones getPlaybackDevices w in
  world_of r = w ∧ ∃ e, result_of r = Exn e.
Proof.
  intros H r. unfold r, loadDevices, bind, await, modify, ret.
  destruct getCameras as [cams|e1]; [|by eauto].
  destruct getMicrophones as [mics|e2]; [|by eauto].
  destruct getPlaybackDevices as [[spks|e3]|]; [|by eauto|];
    destruct H as [[e H]|[[e H]|[e H]]]; done.
Qed.

Lemma loadDevices_rejection_witness :
  (∃ e, Rejected (A := list MediaDeviceInfo) Sample.boom = Rejected e)
  ∧ world_of (loadDevices (Resolved [Sample.cam1]) (Rejected Sample.boom) None
                Sample.fresh) = Sample.fresh.
Proof.
  split; [by eexists|].
  refine (proj1 (loadDevices_rejection (Resolved [Sample.cam1])
                   (Rejected Sample.boom) None Sample.fresh _)).
  right; left. by eexists.
Defined.

(** ** What does not rebuild the tracks *)

(** X11.  Selecting a speaker stores the value, asks the client for that
    playback device when it can, and leaves the local tracks alone: the
    tracks effect does not run. *)
Theorem speaker_selection_keeps_tracks props o value w :
  let w' := step props (o, EvSelectSpeaker value) w in
  selectedSpeakerId w' = value
  ∧ localAudioTrack w' = localAudioTrack w
  ∧ localVideoTrack w' = localVideoTrack w
  ∧ new_calls w w' =
      (if hasSetPlaybackDevice props then [ClientSetPlaybackDevice value] else []).
Proof.
  intros w'. unfold w', step, handle. cbn [fst snd].
  assert (tracks_deps (world_of (select_speaker props value w)) = tracks_deps w) as Hd.
  { unfold select_speaker, bind, modify, fire. simpl.
    by destruct (hasSetPlaybackDevice props). }
  rewrite after_render_same_deps by done.
  unfold select_speaker, bind, modify, fire, ret. simpl.
  destruct (hasSetPlaybackDevice props); simpl; split_and!; try done.
  - by apply new_calls_app.
  - apply new_calls_app. by rewrite app_nil_r.
Qed.

(** X12.  Selecting the camera or the microphone that is already selected
    changes nothing and makes no call. *)
Theorem same_device_is_noop props o w :
  step props (o, EvSelectCamera (selectedCameraId w)) w = w
  ∧ step props (o, EvSelectMicrophone (selectedMicId w)) w = w.
Proof.
  split; unfold step, handle, select_camera, select_microphone; cbn [fst snd];
    rewrite after_render_same_deps by done; by destruct w.
Qed.

Lemma step_connectionState props o s w :
  step props (o, EvConnectionState s) w = set_connectionState s w.
Proof. unfold step, handle. cbn [fst snd]. by rewrite after_render_same_deps. Qed.

(** X13.  Changes of the client's connection state alone never make a
    call and never build or replace a track: if the tracks were not built
    when the join resolved, a later [CONNECTED] does not build them. *)
Theorem connection_events_build_nothing props evs w :
  Forall (λ oe : Oracle * Event, ∃ s, oe.2 = EvConnectionState s) evs →
  let w' := run props evs w in
  calls w' = calls w
  ∧ localAudioTrack w' = localAudioTrack w
  ∧ localVideoTrack w' = localVideoTrack w
  ∧ hasJoined w' = hasJoined w.
Proof.
  intros Hevs.
  apply (run_respects props
           (λ w', calls w' = calls w ∧ localAudioTrack w' = localAudioTrack w
                  ∧ localVideoTrack w' = localVideoTrack w
                  ∧ hasJoined w' = hasJoined w)); [|done].
  intros [o e] w1 Hin Hw1.
  destruct (proj1 (Forall_forall _ _) Hevs _ Hin) as [s Hs]. simpl in Hs. subst e.
  by rewrite step_connectionState.
Qed.

Lemma connection_events_build_nothing_witness :
  Forall (λ oe : Oracle * Event, ∃ s, oe.2 = EvConnectionState s)
    [(all_ok, EvConnectionState RECONNECTING); (all_ok, EvConnectionState CONNECTED)]
  ∧ calls (run Sample.props
             [(all_ok, EvConnectionState RECONNECTING);
              (all_ok, EvConnectionState CONNECTED)] Sample.connected)
    = calls Sample.connected.
Proof.
  assert (Forall (λ oe : Oracle * Event, ∃ s, oe.2 = EvConnectionState s)
            [(all_ok, EvConnectionState RECONNECTING);
             (all_ok, EvConnectionState CONNECTED)]) as H.
  { repeat constructor; by eexists. }
  split; [exact H|].
  exact (proj1 (connection_events_build_nothing Sample.props _ Sample.connected H)).
Defined.

(** ** Flags that are never reset *)

Lemma handle_hasJoined_true props o e :
  respects (λ w, hasJoined w = true) (handle props o e).
Proof.
  destruct e; unfold_handlers; unfold init_resume; unfold_handlers;
    respects_all; done.
Qed.

Lemma after_render_hasJoined_true o w0 :
  respects (λ w, hasJoined w = true) (after_render o w0).
Proof. unfold_handlers. respects_all; done. Qed.

(** X7.  Once [hasJoined] is true it stays true for the rest of the
    session: neither the Leave button nor the cleanup nor a disconnection
    resets it. *)
Theorem hasJoined_is_never_reset props evs w :
  hasJoined w = true → hasJoined (run props evs w) = true.
Proof.
  apply (run_respects props (λ w, hasJoined w = true)).
  intros oe w' _ Hw'. unfold step.
  apply after_render_hasJoined_true. by apply handle_hasJoined_true.
Qed.

Lemma hasJoined_is_never_reset_witness :
  hasJoined Sample.connected = true
  ∧ hasJoined (run Sample.props
                 [(all_ok, EvHandleLeave); (all_ok, EvCleanup);
                  (all_ok, EvConnectionState DISCONNECTED)] Sample.connected) = true.
Proof.
  split; [by vm_compute|].
  apply (hasJoined_is_never_reset Sample.props _ Sample.connected). by vm_compute.
Defined.

(** ** The join call *)

(** X4.  From [DISCONNECTED] the effect body makes exactly one call, the
    join, with the app id, the channel name and the uid made of the user
    name, a hyphen and the random number in decimal; two different random
    numbers give two different uids. *)
Theorem join_call_and_uid props o rnd w :
  connectionState w = DISCONNECTED →
  new_calls w (start props o rnd w) =
    [ClientJoin (appId props) (channelName props) (join_uid props rnd)]
  ∧ (∀ rnd', join_uid props rnd' = join_uid props rnd → rnd' = rnd).
Proof.
  intros Hst. split.
  - apply new_calls_app.
    unfold start, mount, init_begin, bind, modify, gets, detach,
      try_catch, fire, world_of. simpl. rewrite Hst. by simpl.
  - intros rnd' H. unfold join_uid in H.
    apply (inj (String.app (userName props))) in H.
    apply (inj (String.app "-")) in H.
    by apply (inj pretty) in H.
Qed.

Lemma join_call_and_uid_witness :
  connectionState Sample.fresh = DISCONNECTED
  ∧ new_calls Sample.fresh (start Sample.props all_ok 42 Sample.fresh) =
      [ClientJoin "app-id" "room-1" "Alice-42"].
Proof.
  split; [done|].
  exact (proj1 (join_call_and_uid Sample.props all_ok 42 Sample.fresh eq_refl)).
Defined.

(** ** No media without a join, a camera and a microphone *)

Lemma count_calls_snoc p l c :
  count_calls p (l ++ [c]) = count_calls p l + (if p c then 1 else 0).
Proof.
  unfold count_calls. rewrite filter_app, length_app. f_equal.
  rewrite filter_cons, filter_nil. by destruct (p c).
Qed.

Lemma no_tracks_record_call n c w :
  is_track_call c = false → no_tracks n w → no_tracks n (record_call c w).
Proof.
  intros Hc (Ha & Hv & Hca & Hcv & Hn). unfold no_tracks. simpl.
  rewrite count_calls_snoc, Hc. split_and!; try done. lia.
Qed.

Ltac no_tracks_goal :=
  match goal with
  | H : no_tracks ?n ?w |- no_tracks ?n (record_call _ ?w) =>
      apply no_tracks_record_call; [reflexivity | exact H]
  | H : no_tracks ?n ?w |- no_tracks ?n _ => exact H
  end.

Lemma handle_no_tracks props o e n : respects (no_tracks n) (handle props o e).
Proof.
  destruct e.
  - unfold_handlers; unfold init_resume; unfold_handlers.
    respects_all; no_tracks_goal.
  - intros w Hw. pose proof Hw as (_ & _ & Hca & Hcv & _).
    unfold handle, effect_cleanup, cleanup, bind, modify, gets, detach,
      try_catch, opt_close, call, emit, ret, world_of. simpl.
    rewrite Hca, Hcv. simpl.
    assert (no_tracks n (set_aborted true w)) as Hw' by exact Hw.
    destruct (o ClientLeave); simpl;
      repeat (apply no_tracks_record_call; [reflexivity|]); exact Hw'.
  - unfold_handlers. respects_all; no_tracks_goal.
  - unfold_handlers. respects_all; no_tracks_goal.
  - unfold_handlers. respects_all; no_tracks_goal.
  - unfold_handlers. respects_all; no_tracks_goal.
  - unfold_handlers. respects_all; no_tracks_goal.
  - unfold_handlers. respects_all; no_tracks_goal.
  - intros w Hw. pose proof Hw as (Ha & Hv & _).
    unfold handle, handleLeave, bind, modify, gets, opt_close, call, fire,
      emit, ret, world_of. simpl.
    rewrite Ha, Hv. simpl.
    destruct (o OnLeave); simpl;
      repeat (apply no_tracks_record_call; [reflexivity|]); exact Hw.
Qed.

Lemma after_render_blocked o w0 w :
  effect_blocked w → after_render o w0 w = (Val tt, w).
Proof.
  intros Hb. unfold after_render, tracks_effect, bind, gets, ret.
  destruct (bool_decide _); [|done].
  destruct Hb as [H | [H | H]]; rewrite H; [by rewrite andb_false_r | done |].
  by rewrite andb_false_r.
Qed.

Lemma step_blocked props oe w :
  effect_blocked (world_of (handle props oe.1 oe.2 w)) →
  step props oe w = world_of (handle props oe.1 oe.2 w).
Proof. intros Hb. unfold step. by rewrite after_render_blocked. Qed.

Lemma handle_not_joined props o e :
  e ≠ EvJoinSettled Returns →
  respects (λ w, hasJoined w = false) (handle props o e).
Proof.
  intros He. destruct e as [[|err]| | | | | | | |]; [done|..];
    unfold_handlers; unfold init_resume; unfold_handlers; respects_all; done.
Qed.

Lemma handle_no_camera props o e :
  (∀ value, e ≠ EvSelectCamera value) →
  respects (λ w, selectedCameraId w = "") (handle props o e).
Proof.
  intros He. destruct e; try (by destruct (He value));
    unfold_handlers; unfold init_resume; unfold_handlers; respects_all; done.
Qed.

(** X8.  As long as the join has not resolved successfully, nothing touches
    a local track: whatever is selected and whatever else happens, no track
    is created, closed, published or unpublished, and the component holds
    none. *)
Theorem no_media_before_join props evs n w :
  hasJoined w = false → no_tracks n w →
  Forall (λ oe : Oracle * Event, oe.2 ≠ EvJoinSettled Returns) evs →
  let w' := run props evs w in
  hasJoined w' = false
  ∧ localAudioTrack w' = None ∧ localVideoTrack w' = None
  ∧ count_calls is_track_call (calls w') = n.
Proof.
  intros Hj Hn Hevs w'.
  assert (hasJoined w' = false ∧ no_tracks n w') as (? & ? & ? & _ & _ & ?).
  { apply (run_respects props (λ w, hasJoined w = false ∧ no_tracks n w)); [|done].
    intros oe w1 Hin [Hj1 Hn1].
    assert (hasJoined (world_of (handle props oe.1 oe.2 w1)) = false) as Hj2.
    { apply handle_not_joined; [|done].
      by apply (proj1 (Forall_forall _ _) Hevs). }
    rewrite step_blocked by (by left).
    split; [done|]. by apply handle_no_tracks. }
  done.
Qed.

Lemma no_media_before_join_witness :
  hasJoined Sample.joining = false
  ∧ no_tracks 0 Sample.joining
  ∧ Forall (λ oe : Oracle * Event, oe.2 ≠ EvJoinSettled Returns)
      [(all_ok, EvSelectMicrophone "mic2"); (all_ok, EvConnectionState CONNECTED);
       (all_ok, EvHandleLeave)]
  ∧ count_calls is_track_call
      (calls (run Sample.props
                [(all_ok, EvSelectMicrophone "mic2");
                 (all_ok, EvConnectionState CONNECTED);
                 (all_ok, EvHandleLeave)] Sample.joining)) = 0.
Proof.
  assert (no_tracks 0 Sample.joining) as Hn by (by vm_compute).
  assert (Forall (λ oe : Oracle * Event, oe.2 ≠ EvJoinSettled Returns)
      [(all_ok, EvSelectMicrophone "mic2"); (all_ok, EvConnectionState CONNECTED);
       (all_ok, EvHandleLeave)]) as Hevs by (repeat constructor; done).
  split; [done|]. split; [exact Hn|]. split; [exact Hevs|].
  exact (proj2 (proj2 (proj2
    (no_media_before_join Sample.props _ 0 Sample.joining eq_refl Hn Hevs)))).
Defined.

(** X9.  Without a selected camera no media at all is published: as long
    as no camera is selected the microphone track is not created either,
    also after the join and with a microphone selected. *)
Theorem no_media_without_camera props evs n w :
  selectedCameraId w = "" → no_tracks n w →
  Forall (λ oe : Oracle * Event, ∀ value, oe.2 ≠ EvSelectCamera value) evs →
  let w' := run props evs w in
  localAudioTrack w' = None ∧ localVideoTrack w' = None
  ∧ count_calls is_track_call (calls w') = n.
Proof.
  intros Hc Hn Hevs w'.
  assert (selectedCameraId w' = "" ∧ no_tracks n w') as (? & ? & ? & _ & _ & ?).
  { apply (run_respects props (λ w, selectedCameraId w = "" ∧ no_tracks n w)); [|done].
    intros oe w1 Hin [Hc1 Hn1].
    assert (selectedCameraId (world_of (handle props oe.1 oe.2 w1)) = "") as Hc2.
    { apply handle_no_camera; [|done].
      by apply (proj1 (Forall_forall _ _) Hevs). }
    rewrite step_blocked by (right; left; by rewrite Hc2).
    split; [done|]. by apply handle_no_tracks. }
  done.
Qed.

Lemma no_media_without_camera_witness :
  let w := start Sample.props all_ok 42 (initial_world [] [Sample.mic1] [] "" "mic1" "") in
  let evs := [(all_ok, EvConnectionState CONNECTED); (all_ok, EvJoinSettled Returns);
              (all_ok, EvSelectMicrophone "mic1")] in
  selectedCameraId w = ""
  ∧ no_tracks 0 w
  ∧ Forall (λ oe : Oracle * Event, ∀ value, oe.2 ≠ EvSelectCamera value) evs
  ∧ localAudioTrack (run Sample.props evs w) = None.
Proof.
  intros w evs.
  assert (Forall (λ oe : Oracle * Event, ∀ value, oe.2 ≠ EvSelectCamera value) evs)
    as Hevs by (repeat constructor; done).
  assert (no_tracks 0 w) as Hn by (by vm_compute).
  split; [done|]. split; [exact Hn|]. split; [exact Hevs|].
  exact (proj1 (no_media_without_camera Sample.props evs 0 w eq_refl Hn Hevs)).
Defined.

(** ** Rebuilding the tracks when a call fails *)

(** X10.  When the tracks are rebuilt, [setupTracks] never throws.  Its
    calls are those of the sequence close, close, unpublish, create, create,
    publish up to the first one that fails, followed by the console error
    and the error toast when one failed.  The tracks in the state are
    replaced exactly when everything before the publish succeeded: a failed
    publish leaves the new, unpublished tracks there, an earlier failure
    leaves the old ones. *)
Theorem setupTracks_reports_failures o w :
  hasJoined w = true →
  connectionState w = CONNECTED →
  truthy (selectedCameraId w) = true →
  truthy (selectedMicId w) = true →
  let r := setupTracks o w in
  let a' := {| trackKind := audio; trackDevice := selectedMicId w;
               trackId := nextTrackId w |} in
  let v' := {| trackKind := video; trackDevice := selectedCameraId w;
               trackId := S (nextTrackId w) |} in
  let build :=
    close_calls (localAudioTrack w) ++ close_calls (localVideoTrack w) ++
    [ClientUnpublish (omap id [localAudioTrack w; localVideoTrack w]);
     CreateMicrophoneAudioTrack (selectedMicId w);
     CreateCameraVideoTrack (selectedCameraId w)] in
  let steps := build ++ [ClientPublish [a'; v']] in
  result_of r = Val tt
  ∧ new_calls w (world_of r) =
      attempted o steps ++
      (if all_return o steps then []
       else [ConsoleError "Error updating tracks:";
             ToastError "Could not update media tracks"])
  ∧ (localAudioTrack (world_of r), localVideoTrack (world_of r)) =
      (if all_return o build then (Some a', Some v')
       else (localAudioTrack w, localVideoTrack w)).
Proof.
  intros Hj Hst Hcam Hmic.
  unfold setupTracks, create_track, try_catch, bind, gets, opt_close, call,
    emit, modify, ret.
  rewrite Hj, Hst, Hcam, Hmic. cbn [negb orb bool_decide decide_rel].
  rewrite bool_decide_false by (by intros []). cbn [orb].
  destruct (localAudioTrack w) as [a|] eqn:Ea, (localVideoTrack w) as [v|] eqn:Ev;
    simpl;
    repeat (match goal with |- context [o ?c] => destruct (o c) eqn:? end; simpl);
    rewrite ?Ea, ?Ev;
    (split; [done | split; [apply new_calls_app; simpl; by rewrite <- ?app_assoc | done]]).
Qed.

Lemma setupTracks_reports_failures_witness :
  hasJoined Sample.connected = true
  ∧ connectionState Sample.connected = CONNECTED
  ∧ truthy (selectedCameraId Sample.connected) = true
  ∧ truthy (selectedMicId Sample.connected) = true
  ∧ new_calls Sample.connected
      (world_of (setupTracks Sample.audio_close_throws Sample.connected)) =
      [TrackClose Sample.a0; ConsoleError "Error updating tracks:";
       ToastError "Could not update media tracks"].
Proof.
  do 4 (split; [by vm_compute|]).
  exact (proj1 (proj2 (setupTracks_reports_failures Sample.audio_close_throws
                         Sample.connected eq_refl eq_refl eq_refl eq_refl))).
Defined.

(** ** A join that succeeds *)

Lemma handle_not_aborted props o e :
  e ≠ EvCleanup → respects (λ w, aborted w = false) (handle props o e).
Proof.
  intros He. destruct e; [|done|..];
    unfold_handlers; unfold init_resume; unfold_handlers; respects_all; done.
Qed.

Lemma after_render_not_aborted o w0 :
  respects (λ w, aborted w = false) (after_render o w0).
Proof. unfold_handlers. respects_all; done. Qed.

Lemma handle_calls_grow props o e l :
  respects (λ w, l `prefix_of` calls w) (handle props o e).
Proof.
  destruct e; unfold_handlers; unfold init_resume; unfold_handlers;
    respects_all; try done; simpl; by apply prefix_app_r.
Qed.

Lemma after_render_calls_grow o w0 l :
  respects (λ w, l `prefix_of` calls w) (after_render o w0).
Proof. unfold_handlers. respects_all; try done; simpl; by apply prefix_app_r. Qed.

Lemma start_not_aborted props o rnd w : aborted (start props o rnd w) = false.
Proof.
  assert (respects (λ w, aborted w = false) (detach (init_begin props o rnd))) as H.
  { unfold_handlers. respects_all; done. }
  unfold start, mount.
  apply (H (capture_tracks (set_aborted false w))). done.
Qed.

(** X5.  When the pending join resolves and no cleanup has run, the
    component becomes joined, adds its two listeners after the ones the
    client had, and calls [setClientRole], the success toast and [client.on]
    twice, in this order, before anything else. *)
Theorem join_success_connects props o0 rnd w0 pre o :
  connectionState w0 = DISCONNECTED →
  Forall (λ oe : Oracle * Event, (∀ r, oe.2 ≠ EvJoinSettled r) ∧ oe.2 ≠ EvCleanup) pre →
  (∀ ev, o (ClientOn ev) = Returns) →
  let w := run props pre (start props o0 rnd w0) in
  let w' := step props (o, EvJoinSettled Returns) w in
  hasJoined w' = true
  ∧ listeners w' = listeners w0 ++ [user_published; user_unpublished]
  ∧ joinPending w' = false
  ∧ ∃ rest, new_calls w w' =
      [ClientSetClientRole "host"; ToastSuccess "Connected to video call";
       ClientOn user_published; ClientOn user_unpublished] ++ rest.
Proof.
  intros Hst Hpre Hon w w'.
  assert (joinPending w = true) as Hp.
  { apply (run_respects props (λ w, joinPending w = true)).
    - intros oe w1 Hin. apply step_joinPending.
      by apply (proj1 (Forall_forall _ _) Hpre).
    - by apply start_joinPending. }
  assert (aborted w = false) as Hab.
  { apply (run_respects props (λ w, aborted w = false)).
    - intros oe w1 Hin Hw1. unfold step.
      apply after_render_not_aborted. apply handle_not_aborted; [|done].
      by apply (proj1 (Forall_forall _ _) Hpre).
    - apply start_not_aborted. }
  assert (listeners w = listeners w0) as Hl.
  { assert (join_facts w = join_facts w0) as Hf.
    { apply run_pre_join_facts; [|apply start_join_facts].
      apply (Forall_impl _ _ _ Hpre). by intros oe [? ?]. }
    unfold join_facts in Hf. by injection Hf. }
  set (w1 := add_listener user_unpublished (record_call (ClientOn user_unpublished)
        (add_listener user_published (record_call (ClientOn user_published)
          (record_call (ToastSuccess "Connected to video call")
            (record_call (ClientSetClientRole "host")
              (setHasJoined true (set_joinPending false w)))))))).
  assert (world_of (handle props o (EvJoinSettled Returns) w) = w1) as Hh.
  { rewrite (handle_join_settled _ _ _ _ Hp).
    unfold init_resume, register, try_catch, bind, modify, gets, call, fire,
      emit, ret. simpl. rewrite Hab. simpl. rewrite ?Hon. simpl. by rewrite ?Hon. }
  clearbody w. unfold w', step. cbn [fst snd]. rewrite Hh.
  split_and!.
  - by apply (after_render_hasJoined_true o w w1).
  - assert (join_facts (world_of (after_render o w w1)) = join_facts w1) as Hf
      by (by apply (after_render_join_facts o w (join_facts w1))).
    unfold join_facts in Hf. injection Hf as _ Hf _. rewrite Hf. simpl.
    by rewrite Hl, <- app_assoc.
  - by apply (after_render_joinPending o w false w1).
  - destruct (after_render_calls_grow o w (calls w1) w1) as [rest Hrest]; [done|].
    exists rest. apply new_calls_app. rewrite Hrest. unfold w1. simpl.
    by rewrite <- !app_assoc.
Qed.

Lemma join_success_connects_witness :
  connectionState Sample.fresh = DISCONNECTED
  ∧ Forall (λ oe : Oracle * Event, (∀ r, oe.2 ≠ EvJoinSettled r) ∧ oe.2 ≠ EvCleanup)
      [(all_ok, EvConnectionState CONNECTING)]
  ∧ (∀ ev, all_ok (ClientOn ev) = Returns)
  ∧ hasJoined (step Sample.props (all_ok, EvJoinSettled Returns) Sample.joining) = true.
Proof.
  assert (Forall (λ oe : Oracle * Event,
                    (∀ r, oe.2 ≠ EvJoinSettled r) ∧ oe.2 ≠ EvCleanup)
            [(all_ok, EvConnectionState CONNECTING)]) as Hpre.
  { repeat constructor; done. }
  split; [done|]. split; [exact Hpre|]. split; [done|].
  exact (proj1 (join_success_connects Sample.props all_ok 42 Sample.fresh _ all_ok
                  eq_refl Hpre (λ _, eq_refl))).
Defined.

(** ** What the cleanup closes *)

Lemma handle_captured props o e a v :
  respects (λ w, capturedAudio w = a ∧ capturedVideo w = v) (handle props o e).
Proof.
  destruct e; unfold_handlers; unfold init_resume; unfold_handlers;
    respects_all; done.
Qed.

Lemma after_render_captured o w0 a v :
  respects (λ w, capturedAudio w = a ∧ capturedVideo w = v) (after_render o w0).
Proof. unfold_handlers. respects_all; done. Qed.

Lemma teardown_steps o a v w :
  tracks_deps (world_of (cleanup o a v w)) = tracks_deps w
  ∧ calls (world_of (cleanup o a v w)) =
      calls w ++
      attempted o (close_calls a ++ close_calls v ++ [ClientLeave]) ++
      (if all_return o (close_calls a ++ close_calls v ++ [ClientLeave])
       then [] else [ConsoleWarn "Error during cleanup:"]).
Proof.
  unfold cleanup, try_catch, bind, opt_close, call, emit, modify, ret.
  destruct a as [a|], v as [v|]; simpl;
    repeat (match goal with |- context [o ?c] => destruct (o c) end; simpl);
    (split; [done | by rewrite <- ?app_assoc, ?app_nil_r]).
Qed.

(** X18.  The cleanup closes the tracks that existed when the effect ran,
    not the ones that exist when it runs: in a session that started without
    tracks it closes none, whatever tracks were built since, and only leaves
    the channel. *)
Theorem cleanup_closes_mount_time_tracks props o0 rnd w0 evs o :
  let w := run props evs (start props o0 rnd w0) in
  let w' := step props (o, EvCleanup) w in
  new_calls w w' =
    attempted o (close_calls (localAudioTrack w0) ++ close_calls (localVideoTrack w0)
                 ++ [ClientLeave]) ++
    (if all_return o (close_calls (localAudioTrack w0) ++
                      close_calls (localVideoTrack w0) ++ [ClientLeave])
     then [] else [ConsoleWarn "Error during cleanup:"])
  ∧ (localAudioTrack w0 = None → localVideoTrack w0 = None →
     count_calls is_track_call (new_calls w w') = 0).
Proof.
  intros w w'.
  assert (capturedAudio w = localAudioTrack w0
          ∧ capturedVideo w = localVideoTrack w0) as [Ha Hv].
  { apply (run_respects props
             (λ w, capturedAudio w = localAudioTrack w0
                   ∧ capturedVideo w = localVideoTrack w0)).
    - intros oe w1 _ Hw1. unfold step.
      apply after_render_captured. by apply handle_captured.
    - assert (respects (λ w, capturedAudio w = localAudioTrack w0
                             ∧ capturedVideo w = localVideoTrack w0)
                (detach (init_begin props o0 rnd))) as H.
      { unfold_handlers. respects_all; done. }
      unfold start, mount.
      apply (H (capture_tracks (set_aborted false w0))). done. }
  clearbody w.
  assert (new_calls w w' =
    attempted o (close_calls (localAudioTrack w0) ++ close_calls (localVideoTrack w0)
                 ++ [ClientLeave]) ++
    (if all_return o (close_calls (localAudioTrack w0) ++
                      close_calls (localVideoTrack w0) ++ [ClientLeave])
     then [] else [ConsoleWarn "Error during cleanup:"])) as Hn.
  { unfold w', step, handle, effect_cleanup. cbn [fst snd].
    change (world_of ((modify (set_aborted true) ;;
                       a <- gets capturedAudio ;; v <- gets capturedVideo ;;
                       detach (cleanup o a v)) w))
      with (world_of (cleanup o (capturedAudio w) (capturedVideo w)
                        (set_aborted true w))).
    rewrite Ha, Hv.
    destruct (teardown_steps o (localAudioTrack w0) (localVideoTrack w0)
                (set_aborted true w)) as (Hd & Hc).
    rewrite after_render_same_deps by (by rewrite Hd).
    apply new_calls_app. exact Hc. }
  split; [exact Hn|].
  intros H1 H2. rewrite Hn, H1, H2. simpl.
  by destruct (o ClientLeave).
Qed.

Lemma cleanup_closes_mount_time_tracks_witness :
  localAudioTrack Sample.fresh = None
  ∧ localVideoTrack Sample.fresh = None
  ∧ let w := run Sample.props
               [(all_ok, EvConnectionState CONNECTING);
                (all_ok, EvConnectionState CONNECTED);
                (all_ok, EvJoinSettled Returns)]
               (start Sample.props all_ok 42 Sample.fresh) in
    localAudioTrack w = Some Sample.a0
    ∧ localVideoTrack w = Some Sample.v0
    ∧ count_calls is_track_call
        (new_calls w (step Sample.props (all_ok, EvCleanup) w)) = 0.
Proof.
  split; [done|]. split; [done|]. intros w.
  split; [by vm_compute|]. split; [by vm_compute|].
  exact (proj2 (cleanup_closes_mount_time_tracks Sample.props all_ok 42 Sample.fresh
                  [(all_ok, EvConnectionState CONNECTING);
                   (all_ok, EvConnectionState CONNECTED);
                   (all_ok, EvJoinSettled Returns)] all_ok) eq_refl eq_refl).
Defined.

(** ** The listeners of a session *)

Lemma handle_listeners_once props o e :
  respects listeners_once (handle props o e).
Proof.
  destruct e.
  - intros w Hw. unfold handle, bind, gets.
    destruct (joinPending w) eqn:Hp; [|done].
    unfold listeners_once in Hw. rewrite Hp in Hw.
    unfold detach, init_resume, init_catch, register, try_catch, bind, modify,
      gets, call, fire, emit, ret, throw, world_of, listeners_once.
    destruct r as [|err]; cbn; [destruct (aborted w); cbn|];
      repeat (match goal with
              | |- context [o ?c] => destruct (o c)
              | |- context [bool_decide ?P] => destruct (bool_decide P)
              end; cbn);
      rewrite ?Hw; cbn; by eexists.
  - unfold_handlers. respects_all; done.
  - unfold_handlers. respects_all; done.
  - unfold_handlers. respects_all; done.
  - unfold_handlers. respects_all; done.
  - unfold_handlers. respects_all; done.
  - unfold_handlers. respects_all; done.
  - unfold_handlers. respects_all; done.
  - unfold_handlers. respects_all; done.
Qed.

Lemma after_render_listeners_once o w0 : respects listeners_once (after_render o w0).
Proof. unfold_handlers. respects_all; done. Qed.

(** X6.  In a session that starts on a client without listeners, each of
    the two listeners is registered at most once, whatever happens: no
    transport event is ever handled twice. *)
Theorem listeners_registered_at_most_once props o0 rnd w0 evs :
  listeners w0 = [] →
  let w := run props evs (start props o0 rnd w0) in
  listeners w `prefix_of` [user_published; user_unpublished]
  ∧ ∀ ev : EventName, (length (filter (λ e, e = ev) (listeners w)) ≤ 1)%nat.
Proof.
  intros Hl w.
  assert (listeners_once w) as Hw.
  { apply (run_respects props listeners_once).
    - intros oe w1 _ Hw1. unfold step.
      apply after_render_listeners_once. by apply handle_listeners_once.
    - assert (join_facts (start props o0 rnd w0) = join_facts w0) as Hf
        by apply start_join_facts.
      unfold join_facts in Hf. injection Hf as _ Hf _.
      unfold listeners_once. rewrite Hf, Hl.
      destruct (joinPending _); [done | by apply prefix_nil]. }
  clearbody w.
  assert (listeners w `prefix_of` [user_published; user_unpublished]) as Hpre.
  { unfold listeners_once in Hw. destruct (joinPending w); [|done].
    rewrite Hw. by apply prefix_nil. }
  split; [done|]. intros ev.
  destruct Hpre as [k Hk].
  destruct (listeners w) as [|e1 [|e2 [|e3 l]]]; simplify_eq/=;
    destruct ev; rewrite ?filter_cons, ?filter_nil; simpl; lia.
Qed.

Lemma listeners_registered_at_most_once_witness :
  listeners Sample.fresh = []
  ∧ listeners (run Sample.props
                 [(all_ok, EvConnectionState CONNECTING);
                  (all_ok, EvConnectionState CONNECTED);
                  (all_ok, EvJoinSettled Returns)]
                 (start Sample.props all_ok 42 Sample.fresh))
    `prefix_of` [user_published; user_unpublished].
Proof.
  split; [done|].
  exact (proj1 (listeners_registered_at_most_once Sample.props all_ok 42 Sample.fresh
                  [(all_ok, EvConnectionState CONNECTING);
                   (all_ok, EvConnectionState CONNECTED);
                   (all_ok, EvJoinSettled Returns)] eq_refl)).
Defined.

(** ** Participants who come and go *)

Lemma add_user_elem_of user prev u :
  u ∈ uid <$> add_user user prev ↔ u = uid user ∨ u ∈ uid <$> prev.
Proof.
  destruct (decide (uid user ∈ uid <$> prev)) as [Hin|Hnot].
  - rewrite add_user_present by done. split; [by right|]. by intros [->|?].
  - rewrite add_user_absent by done. rewrite fmap_app, elem_of_app. simpl.
    rewrite list_elem_of_singleton. tauto.
Qed.

Lemma add_user_idemp user prev :
  add_user user (add_user user prev) = add_user user prev.
Proof. apply add_user_present, add_user_elem_of. by left. Qed.

Lemma remove_user_absent user prev :
  uid user ∉ uid <$> prev → remove_user user prev = prev.
Proof.
  unfold remove_user. induction prev as [|u prev IH]; [done|].
  intros Hnot. rewrite fmap_cons, not_elem_of_cons in Hnot.
  destruct Hnot as [Hne Hnot]. rewrite filter_cons_True by done.
  by rewrite IH.
Qed.

Lemma remove_user_add_user user user' prev :
  uid user' = uid user → uid user ∉ uid <$> prev →
  remove_user user' (add_user user prev) = prev.
Proof.
  intros Hu Hnot. rewrite add_user_absent by done.
  unfold remove_user. rewrite filter_app, filter_cons_False, filter_nil, app_nil_r
    by (intros Hne; by destruct Hne).
  apply remove_user_absent. by rewrite Hu.
Qed.

Lemma times_S_detach n m w :
  times (S n) (detach m) w = times n (detach m) (world_of (m w)).
Proof. done. Qed.

Lemma published_once o user mediaType w :
  o (ClientSubscribe (uid user) mediaType) = Returns →
  users (world_of (on_user_published o user mediaType w)) = add_user user (users w)
  ∧ tracks_deps (world_of (on_user_published o user mediaType w)) = tracks_deps w.
Proof.
  intros Hsub. unfold on_user_published, bind, call, modify, fire, emit, ret.
  rewrite Hsub. by destruct mediaType, (audioTrack user).
Qed.

Lemma published_times n o user mediaType w :
  o (ClientSubscribe (uid user) mediaType) = Returns →
  users (world_of (times (S n) (detach (on_user_published o user mediaType)) w))
  = add_user user (users w)
  ∧ tracks_deps (world_of (times (S n) (detach (on_user_published o user mediaType)) w))
    = tracks_deps w.
Proof.
  intros Hsub. revert w. induction n as [|n IH]; intros w.
  - rewrite times_S_detach. by apply published_once.
  - rewrite times_S_detach.
    destruct (IH (world_of (on_user_published o user mediaType w))) as [-> ->].
    destruct (published_once o user mediaType w Hsub) as [-> ->].
    by rewrite add_user_idemp.
Qed.

Lemma step_published props o user mediaType w :
  user_published ∈ listeners w →
  o (ClientSubscribe (uid user) mediaType) = Returns →
  users (step props (o, EvUserPublished user mediaType) w) = add_user user (users w).
Proof.
  intros Hin Hsub. unfold step, handle, deliver. cbn [fst snd].
  unfold bind at 1, gets at 1.
  destruct (filter (λ e, e = user_published) (listeners w)) as [|e l] eqn:E.
  { apply (filter_nil_not_elem_of _ _ user_published) in E; done. }
  cbn [length].
  destruct (published_times (length l) o user mediaType w Hsub) as [Hu Hd].
  by rewrite after_render_same_deps.
Qed.

(** X14.  A [user-published] event whose subscription succeeds puts the
    participant in the registry: a new uid is appended at the end, and the
    uids of the registry are the old ones and this one. *)
Theorem published_adds_participant props o user mediaType w :
  user_published ∈ listeners w →
  o (ClientSubscribe (uid user) mediaType) = Returns →
  let w' := step props (o, EvUserPublished user mediaType) w in
  (uid user ∉ uid <$> users w → users w' = users w ++ [user])
  ∧ (∀ u, u ∈ uid <$> users w' ↔ u = uid user ∨ u ∈ uid <$> users w).
Proof.
  intros Hin Hsub w'. unfold w'. rewrite step_published by done. split.
  - apply add_user_absent.
  - intros u. apply add_user_elem_of.
Qed.

Lemma published_adds_participant_witness :
  user_published ∈ listeners Sample.connected
  ∧ all_ok (ClientSubscribe (uid Sample.bob) video) = Returns
  ∧ (uid Sample.bob ∉ uid <$> users Sample.connected)
  ∧ users (step Sample.props (all_ok, EvUserPublished Sample.bob video) Sample.connected)
    = users Sample.connected ++ [Sample.bob].
Proof.
  assert (user_published ∈ listeners Sample.connected) as Hin
    by (vm_compute; by left).
  assert (uid Sample.bob ∉ uid <$> users Sample.connected) as Hnot
    by (vm_compute; by intros ?%elem_of_nil).
  split; [exact Hin|]. split; [done|]. split; [exact Hnot|].
  exact (proj1 (published_adds_participant Sample.props all_ok Sample.bob video
                  Sample.connected Hin eq_refl) Hnot).
Defined.

Lemma subscribe_failure_times n o user mediaType e w :
  o (ClientSubscribe (uid user) mediaType) = Throws e →
  users (world_of (times n (detach (on_user_published o user mediaType)) w)) = users w
  ∧ tracks_deps (world_of (times n (detach (on_user_published o user mediaType)) w))
    = tracks_deps w
  ∧ calls (world_of (times n (detach (on_user_published o user mediaType)) w))
    = calls w ++ replicate n (ClientSubscribe (uid user) mediaType).
Proof.
  intros Hsub. revert w. induction n as [|n IH]; intros w.
  - simpl. by rewrite app_nil_r.
  - rewrite times_S_detach.
    assert (world_of (on_user_published o user mediaType w)
            = record_call (ClientSubscribe (uid user) mediaType) w) as ->.
    { unfold on_user_published, bind, call. by rewrite Hsub. }
    destruct (IH (record_call (ClientSubscribe (uid user) mediaType) w))
      as (-> & -> & ->).
    simpl. by rewrite <- app_assoc.
Qed.

(** X15.  When the subscription is refused, the registry stays as it was
    and nothing is played or scheduled: the only calls are the subscribe
    attempts, one per registered listener. *)
Theorem subscribe_failure_keeps_registry props o user mediaType e w :
  o (ClientSubscribe (uid user) mediaType) = Throws e →
  let w' := step props (o, EvUserPublished user mediaType) w in
  users w' = users w
  ∧ new_calls w w' =
      replicate (length (filter (λ ev, ev = user_published) (listeners w)))
        (ClientSubscribe (uid user) mediaType)
  ∧ count_calls is_playback (new_calls w w') = 0.
Proof.
  intros Hsub w'.
  set (n := length (filter (λ ev, ev = user_published) (listeners w))).
  destruct (subscribe_failure_times n o user mediaType e w Hsub) as (Hu & Hd & Hc).
  assert (w' = world_of (times n (detach (on_user_published o user mediaType)) w))
    as ->.
  { unfold w', step, handle, deliver. cbn [fst snd].
    unfold bind at 1, gets at 1. fold n. by rewrite after_render_same_deps. }
  assert (new_calls w (world_of (times n (detach (on_user_published o user mediaType)) w))
          = replicate n (ClientSubscribe (uid user) mediaType)) as Hn
    by (by apply new_calls_app).
  split; [done|]. split; [done|]. rewrite Hn.
  clear. induction n as [|n IH]; [done|].
  unfold count_calls in *. by rewrite replicate_S, filter_cons_False.
Qed.

Lemma subscribe_failure_keeps_registry_witness :
  subscribe_rejects Sample.boom (ClientSubscribe (uid Sample.bob) audio)
    = Throws Sample.boom
  ∧ users (step Sample.props
             (subscribe_rejects Sample.boom, EvUserPublished Sample.bob audio)
             Sample.connected)
    = users Sample.connected.
Proof.
  split; [done|].
  exact (proj1 (subscribe_failure_keeps_registry Sample.props
                  (subscribe_rejects Sample.boom) Sample.bob audio
                  Sample.boom Sample.connected eq_refl)).
Defined.


Lemma on_user_published_split o user mediaType w :
  on_user_published o user mediaType w =
  (on_user_published_begin user mediaType ;;
   on_user_published_resume user mediaType
     (o (ClientSubscribe (uid user) mediaType))) w.
Proof.
  unfold on_user_published, on_user_published_begin, on_user_published_resume,
    bind, call, fire, modify, throw.
  by destruct (o (ClientSubscribe (uid user) mediaType)).
Qed.

(** X16.  The listener of [user-published] is the call of the subscription
    followed, when it settles, by the rest.  For a participant who was not
    in the registry: if the subscription resolves before the
    [user-unpublished] event is handled, the registry ends as it was before;
    if the [user-unpublished] event is handled while the subscription is
    pending, the participant is added when it resolves and stays in the
    registry. *)
Theorem publish_unpublish_depends_on_order o user user' mediaType w :
  uid user' = uid user →
  uid user ∉ uid <$> users w →
  let pending := world_of (on_user_published_begin user mediaType w) in
  (∀ w0, on_user_published o user mediaType w0 =
         (on_user_published_begin user mediaType ;;
          on_user_published_resume user mediaType
            (o (ClientSubscribe (uid user) mediaType))) w0)
  ∧ users (world_of (on_user_unpublished user'
             (world_of (on_user_published_resume user mediaType Returns pending))))
    = users w
  ∧ users (world_of (on_user_published_resume user mediaType Returns
             (world_of (on_user_unpublished user' pending))))
    = users w ++ [user].
Proof.
  intros Hu Hnot pending. split; [apply on_user_published_split|].
  assert (∀ w0, users (world_of (on_user_published_resume user mediaType Returns w0))
                = add_user user (users w0)) as Hres.
  { intros w0. unfold on_user_published_resume, bind, modify, fire, emit, ret.
    by destruct mediaType, (audioTrack user). }
  split.
  - change (remove_user user' (users (world_of
              (on_user_published_resume user mediaType Returns pending))) = users w).
    rewrite Hres. by apply remove_user_add_user.
  - rewrite Hres.
    change (add_user user (remove_user user' (users w)) = users w ++ [user]).
    rewrite remove_user_absent by (by rewrite Hu).
    by apply add_user_absent.
Qed.

Lemma publish_unpublish_depends_on_order_witness :
  uid Sample.bob_audio_only = uid Sample.bob
  ∧ (uid Sample.bob ∉ uid <$> users Sample.connected)
  ∧ users (world_of (on_user_published_resume Sample.bob video Returns
             (world_of (on_user_unpublished Sample.bob_audio_only
                (world_of (on_user_published_begin Sample.bob video
                             Sample.connected))))))
    = users Sample.connected ++ [Sample.bob].
Proof.
  assert (uid Sample.bob ∉ uid <$> users Sample.connected) as Hnot
    by (vm_compute; by intros ?%elem_of_nil).
  split; [done|]. split; [exact Hnot|].
  exact (proj2 (proj2 (publish_unpublish_depends_on_order all_ok Sample.bob
                         Sample.bob_audio_only video Sample.connected
                         eq_refl Hnot))).
Defined.



(** ** The mute toggles *)

(** X19.  Two video toggles one after the other restore the flag and ask
    the track for the opposite value and then for the original one.  Two
    toggles that both start before either call returns ask for the same
    value, and the flag ends negated once. *)
Theorem toggles_in_sequence_and_overlapping w c t :
  localVideoTrack w = Some t →
  (∀ c1 made1 c2 made2,
     toggleVideo Returns w c = (c1, made1) →
     toggleVideo Returns w c1 = (c2, made2) →
     c2 = c
     ∧ made1 ++ made2 = [SetEnabled t (negb (isVideoEnabled c));
                         SetEnabled t (isVideoEnabled c)])
  ∧ (∀ p1 p2,
       toggleVideo_begin w c = Some p1 →
       toggleVideo_begin w c = Some p2 →
       p1 = p2
       ∧ isVideoEnabled
           (toggleVideo_resume p2 Returns (toggleVideo_resume p1 Returns c))
         = negb (isVideoEnabled c)).
Proof.
  intros Ht. unfold toggleVideo, toggleVideo_begin. rewrite Ht. split.
  - intros c1 made1 c2 made2 [= <- <-] [= <- <-]. simpl.
    rewrite negb_involutive. by destruct c.
  - by intros p1 p2 [= <-] [= <-].
Qed.

Lemma toggles_in_sequence_and_overlapping_witness :
  localVideoTrack Sample.connected = Some Sample.v0
  ∧ isVideoEnabled
      (toggleVideo_resume (SetEnabled Sample.v0 false) Returns
         (toggleVideo_resume (SetEnabled Sample.v0 false) Returns
            {| isVideoEnabled := true; isAudioEnabled := true |})) = false.
Proof.
  assert (localVideoTrack Sample.connected = Some Sample.v0) as Ht by (by vm_compute).
  split; [exact Ht|].
  refine (proj2 (proj2 (toggles_in_sequence_and_overlapping Sample.connected
            {| isVideoEnabled := true; isAudioEnabled := true |} Sample.v0 Ht)
          (SetEnabled Sample.v0 false) (SetEnabled Sample.v0 false) _ _));
    unfold toggleVideo_begin; by rewrite Ht.
Defined.

(** X20.  The two toggles do not interfere: the flags after an audio and a
    video toggle do not depend on their order, and each makes the call it
    would have made alone. *)
Theorem toggles_commute r1 r2 w c :
  (toggleAudio r2 w (toggleVideo r1 w c).1).1
  = (toggleVideo r1 w (toggleAudio r2 w c).1).1
  ∧ (toggleVideo r1 w (toggleAudio r2 w c).1).2 = (toggleVideo r1 w c).2
  ∧ (toggleAudio r2 w (toggleVideo r1 w c).1).2 = (toggleAudio r2 w c).2.
Proof.
  unfold toggleAudio, toggleVideo, toggleAudio_begin, toggleVideo_begin.
  destruct (localVideoTrack w), (localAudioTrack w), r1, r2; done.
Qed.

(** ** The enumeration and the join, in either order *)

Lemma first_build o w0 w :
  hasJoined w = true →
  connectionState w = CONNECTED →
  truthy (selectedCameraId w) = true →
  truthy (selectedMicId w) = true →
  localAudioTrack w = None → localVideoTrack w = None →
  (∀ c, o c = Returns) →
  tracks_deps w ≠ tracks_deps w0 →
  let a := {| trackKind := audio; trackDevice := selectedMicId w;
              trackId := nextTrackId w |} in
  let v := {| trackKind := video; trackDevice := selectedCameraId w;
              trackId := S (nextTrackId w) |} in
  world_of (after_render o w0 w) =
    record_call (ClientPublish [a; v])
      (setLocalVideoTrack (Some v) (setLocalAudioTrack (Some a)
        (bump_trackId (record_call (CreateCameraVideoTrack (selectedCameraId w))
          (bump_trackId (record_call (CreateMicrophoneAudioTrack (selectedMicId w))
            (record_call (ClientUnpublish []) w))))))).
Proof.
  intros Hj Hst Hcam Hmic Ha Hv Hok Hd a v.
  unfold after_render, bind at 1, gets at 1.
  rewrite bool_decide_true by done.
  unfold tracks_effect, setupTracks, create_track, bind, gets, detach,
    try_catch, opt_close, call, modify, ret. simpl.
  repeat (progress (rewrite ?Hcam, ?Hmic, ?Hj, ?Hst, ?Ha, ?Hv, ?Hok; simpl)).
  done.
Qed.

Lemma truthy_nonempty s : truthy s = true → s ≠ "".
Proof. by destruct s. Qed.

(** X3.  The enumeration of the devices and the join may complete in
    either order: on a connected client with nothing selected before, both
    orders end in the same state, with one microphone track and one camera
    track for the first devices, built and published once, after the calls
    of the join. *)
Theorem devices_and_join_in_either_order props o w c cams m mics spks :
  joinPending w = true → aborted w = false → hasJoined w = false →
  connectionState w = CONNECTED →
  selectedCameraId w = "" → selectedMicId w = "" →
  localAudioTrack w = None → localVideoTrack w = None →
  truthy (deviceId c) = true → truthy (deviceId m) = true →
  (∀ call, o call = Returns) →
  let load := load_step o (Resolved (c :: cams)) (Resolved (m :: mics))
                (Resolved <$> spks) in
  let join := step props (o, EvJoinSettled Returns) in
  let a := {| trackKind := audio; trackDevice := deviceId m;
              trackId := nextTrackId w |} in
  let v := {| trackKind := video; trackDevice := deviceId c;
              trackId := S (nextTrackId w) |} in
  join (load w) = load (join w)
  ∧ localAudioTrack (join (load w)) = Some a
  ∧ localVideoTrack (join (load w)) = Some v
  ∧ new_calls w (join (load w)) =
      [ClientSetClientRole "host"; ToastSuccess "Connected to video call";
       ClientOn user_published; ClientOn user_unpublished;
       ClientUnpublish []; CreateMicrophoneAudioTrack (deviceId m);
       CreateCameraVideoTrack (deviceId c); ClientPublish [a; v]].
Proof.
  intros Hp Hab Hj Hst Hcam Hmic Ha Hv Htc Htm Hok load join a v.
  pose proof (truthy_nonempty _ Htc) as Hc0.
  assert (true = true) as Hj0 by reflexivity.
  (* what the enumeration writes *)
  set (loaded := (λ w0 : World,
    let w1 := setSelectedMicId (deviceId m) (setSelectedCameraId (deviceId c)
                (setSpeakers (default [] spks) (setMicrophones (m :: mics)
                  (setCameras (c :: cams) w0)))) in
    match spks ≫= first_device with
    | Some s => setSelectedSpeakerId (deviceId s) w1
    | None => w1
    end)).
  assert (∀ w0, world_of (loadDevices (Resolved (c :: cams)) (Resolved (m :: mics))
                            (Resolved <$> spks) w0) = loaded w0) as Hload.
  { intros w0. unfold loaded, loadDevices, bind, await, modify, ret.
    destruct spks as [[|s spks]|]; done. }
  (* what the continuation of the join writes *)
  set (joined := (λ w0 : World,
    add_listener user_unpublished (record_call (ClientOn user_unpublished)
      (add_listener user_published (record_call (ClientOn user_published)
        (record_call (ToastSuccess "Connected to video call")
          (record_call (ClientSetClientRole "host")
            (setHasJoined true (set_joinPending false w0))))))))).
  assert (∀ w0, joinPending w0 = true → aborted w0 = false →
                world_of (handle props o (EvJoinSettled Returns) w0) = joined w0)
    as Hjoin.
  { intros w0 Hp0 Hab0. rewrite (handle_join_settled _ _ _ _ Hp0).
    unfold joined, init_resume, register, try_catch, bind, modify, gets, call,
      fire, emit, ret. simpl. rewrite Hab0. simpl. rewrite ?Hok. simpl.
    by rewrite ?Hok. }
  (* enumeration first *)
  assert (load w = loaded w) as HA1.
  { unfold load, load_step. rewrite Hload.
    rewrite after_render_blocked; [done|]. left.
    unfold loaded. by destruct (spks ≫= first_device). }
  assert (join (loaded w) =
          world_of (after_render o (loaded w) (joined (loaded w)))) as HA2.
  { unfold join, step. cbn [fst snd]. rewrite Hjoin; [done|..];
      unfold loaded; by destruct (spks ≫= first_device). }
  (* join first *)
  assert (join w = joined w) as HB1.
  { unfold join, step. cbn [fst snd]. rewrite Hjoin by done.
    rewrite after_render_blocked; [done|]. right; left.
    unfold joined. simpl. by rewrite Hcam. }
  assert (load (joined w) =
          world_of (after_render o (joined w) (loaded (joined w)))) as HB2.
  { unfold load, load_step. by rewrite Hload. }
  rewrite HA1, HA2, HB1, HB2.
  assert (loaded (joined w) = joined (loaded w)) as Hcomm.
  { unfold loaded, joined. destruct (spks ≫= first_device); reflexivity. }
  rewrite Hcomm.
  set (w2 := joined (loaded w)).
  assert (hasJoined w2 = true ∧ connectionState w2 = CONNECTED
          ∧ selectedCameraId w2 = deviceId c ∧ selectedMicId w2 = deviceId m
          ∧ localAudioTrack w2 = None ∧ localVideoTrack w2 = None
          ∧ nextTrackId w2 = nextTrackId w
          ∧ calls w2 = calls w ++
              [ClientSetClientRole "host"; ToastSuccess "Connected to video call";
               ClientOn user_published; ClientOn user_unpublished])
    as (H1 & H2 & H3 & H4 & H5 & H6 & H7 & H8).
  { unfold w2, joined, loaded.
    destruct (spks ≫= first_device);
      (split_and!; [exact Hj0 | exact Hst | reflexivity | reflexivity
                   | exact Ha | exact Hv | reflexivity
                   | cbn [calls record_call add_listener setHasJoined
                          set_joinPending setSelectedSpeakerId setSelectedMicId
                          setSelectedCameraId setSpeakers setMicrophones setCameras];
                     by rewrite <- !app_assoc]). }
  clearbody w2.
  assert (tracks_deps w2 ≠ tracks_deps (loaded w)) as HdA.
  { unfold tracks_deps. rewrite H1.
    assert (hasJoined (loaded w) = false) as ->
      by (unfold loaded; by destruct (spks ≫= first_device)).
    congruence. }
  assert (tracks_deps w2 ≠ tracks_deps (joined w)) as HdB.
  { unfold tracks_deps. rewrite H3.
    assert (selectedCameraId (joined w) = "") as -> by done.
    congruence. }
  rewrite (first_build o (loaded w) w2), (first_build o (joined w) w2)
    by (rewrite ?H3, ?H4; done).
  rewrite H3, H4, H7. fold a v.
  split; [done|]. split; [done|]. split; [done|].
  apply new_calls_app. simpl. rewrite H8. by rewrite <- !app_assoc.
Qed.

Lemma devices_and_join_in_either_order_witness :
  let w := run Sample.props [(all_ok, EvConnectionState CONNECTED)]
             (start Sample.props all_ok 42 (initial_world [] [] [] "" "" "")) in
  joinPending w = true ∧ hasJoined w = false ∧ connectionState w = CONNECTED
  ∧ selectedCameraId w = "" ∧ selectedMicId w = ""
  ∧ step Sample.props (all_ok, EvJoinSettled Returns)
      (load_step all_ok (Resolved (Sample.cam1 :: []))
         (Resolved (Sample.mic1 :: [Sample.mic2])) (Resolved <$> None) w)
    = load_step all_ok (Resolved (Sample.cam1 :: []))
        (Resolved (Sample.mic1 :: [Sample.mic2])) (Resolved <$> None)
        (step Sample.props (all_ok, EvJoinSettled Returns) w).
Proof.
  intros w. do 5 (split; [by vm_compute|]).
  refine (proj1 (devices_and_join_in_either_order Sample.props all_ok w
                   Sample.cam1 [] Sample.mic1 [Sample.mic2] None
                   _ _ _ _ _ _ _ _ _ _ _)); by vm_compute.
Defined.
